(** * Task management: the two service modules over their relational store

    The application keeps two tables, [tasks] and [work_entries]
    (flyway/sql/V1___initial_schema.sql), and reaches them through two
    service modules, app/services/taskService.js and
    app/services/workEntryService.js.  Every service function awaits one
    SQL statement and then, at most, inspects the returned rows.

    The embedding has three layers:
    - the SQL fragment the statements use: NULL as [None], three-valued
      comparison, [AND], [IS NULL], the types INTEGER and TEXT of the
      statement parameters, intervals with their day and time fields,
      the aggregate [SUM];
    - the store: both tables as lists of rows in the order a sequential
      scan yields them, the two SERIAL sequences with their upper limit,
      and the constraints of the schema (primary keys, the foreign key
      of [work_entries.task_id]);
    - the JavaScript side: values, truthiness, [rows[0]], property access,
      and promises that are fulfilled or rejected with the error of the
      store. *)

From Stdlib Require Import ZArith List String Bool Permutation Lia.
From Stdlib Require Import Ascii.
Import ListNotations.
Local Open Scope Z_scope.

(** ** SQL values and operators *)

Module Sql.

(** A nullable column of type [A]; [None] is NULL. *)
Definition nullable (A : Type) : Type := option A.

(** [a = b] on integers: NULL as soon as one side is NULL. *)
Definition eq_int (a b : nullable Z) : nullable bool :=
  match a, b with
  | Some x, Some y => Some (x =? y)
  | _, _ => None
  end.

(** [a = b] on booleans. *)
Definition eq_bool (a b : nullable bool) : nullable bool :=
  match a, b with
  | Some x, Some y => Some (Bool.eqb x y)
  | _, _ => None
  end.

(** [a AND b] in three-valued logic. *)
Definition and3 (a b : nullable bool) : nullable bool :=
  match a, b with
  | Some false, _ => Some false
  | _, Some false => Some false
  | Some true, Some true => Some true
  | _, _ => None
  end.

(** [a IS NULL] and [a IS NOT NULL] are never NULL themselves. *)
Definition is_null {A : Type} (a : nullable A) : nullable bool :=
  Some (match a with None => true | Some _ => false end).

Definition is_not_null {A : Type} (a : nullable A) : nullable bool :=
  Some (match a with None => false | Some _ => true end).

(** INTEGER, the type of both [id] columns, of [task_id] and of every
    id parameter: 32 bits, signed. *)
Definition int4_min : Z := -2147483648.
Definition int4_max : Z := 2147483647.

Definition is_int4 (v : Z) : bool := (int4_min <=? v) && (v <=? int4_max).

(** TEXT, the type of [name]: any characters but NUL. *)
Fixpoint has_nul (s : string) : bool :=
  match s with
  | EmptyString => false
  | String c rest => Ascii.eqb c Ascii.zero || has_nul rest
  end.

Definition is_text (s : string) : bool := negb (has_nul s).

(** An interval: whole days and a time of day in microseconds, kept
    apart (the month field is 0 throughout and left out). *)
Record interval : Type := mk_interval {
  days : Z;
  time : Z
}.

Definition usecs_per_day : Z := 86400000000.

(** A span of microseconds as an interval: every whole 24 hours go to
    the day field, rounding towards zero. *)
Definition justify_hours (usecs : Z) : interval :=
  {| days := Z.quot usecs usecs_per_day;
     time := Z.rem usecs usecs_per_day |}.

(** [a - b] on timestamps (microseconds): an interval, with its whole
    days folded into the day field. *)
Definition minus (a b : nullable Z) : nullable interval :=
  match a, b with
  | Some x, Some y => Some (justify_hours (x - y))
  | _, _ => None
  end.

(** [a + b] on intervals: field by field, nothing carried over. *)
Definition interval_pl (a b : interval) : interval :=
  {| days := days a + days b; time := time a + time b |}.

(** A row passes a WHERE clause only when the condition is TRUE. *)
Definition qualifies (c : nullable bool) : bool :=
  match c with
  | Some true => true
  | _ => false
  end.

(** [SUM]: NULL inputs are skipped; the sum of no input is NULL. *)
Fixpoint sum (vs : list (nullable interval)) : nullable interval :=
  match vs with
  | [] => None
  | None :: vs' => sum vs'
  | Some v :: vs' =>
      match sum vs' with
      | None => Some v
      | Some s => Some (interval_pl v s)
      end
  end.

End Sql.

(** ** The schema *)

(** [CREATE TABLE tasks (id SERIAL PRIMARY KEY, name TEXT NOT NULL,
    completed BOOLEAN)], with [completed] defaulting to false. *)
Module Tasks.
Record row : Type := mk {
  id : Z;
  name : string;
  completed : Sql.nullable bool
}.

Definition set_completed (v : Sql.nullable bool) (r : row) : row :=
  {| id := id r; name := name r; completed := v |}.

Definition completed_default : Sql.nullable bool := Some false.
End Tasks.

(** [CREATE TABLE work_entries (id SERIAL PRIMARY KEY,
    task_id INTEGER REFERENCES tasks(id),
    started_on TIMESTAMP WITH TIME ZONE,
    finished_on TIMESTAMP WITH TIME ZONE)]. *)
Module WorkEntries.
Record row : Type := mk {
  id : Z;
  task_id : Sql.nullable Z;
  started_on : Sql.nullable Z;
  finished_on : Sql.nullable Z
}.

Definition set_finished_on (v : Sql.nullable Z) (r : row) : row :=
  {| id := id r; task_id := task_id r;
     started_on := started_on r; finished_on := v |}.
End WorkEntries.

(** The store: the rows of both tables and the next value of the
    sequence behind each SERIAL column. *)
Record database : Type := mkdb {
  tasks : list Tasks.row;
  work_entries : list WorkEntries.row;
  tasks_id_seq : Z;
  work_entries_id_seq : Z
}.

(** The store right after the migration has run. *)
Definition V1_initial_schema : database :=
  {| tasks := []; work_entries := [];
     tasks_id_seq := 1; work_entries_id_seq := 1 |}.

(** ** JavaScript values *)

#[warnings="-register-all"]
Inductive js_value : Type :=
| JsUndefined
| JsNull
| JsBool (b : bool)
| JsNumber (n : Z)
| JsString (s : string)
| JsDate (t : Z)
| JsObject (fields : list (string * js_value))
| JsArray (items : list js_value).

(** What [if (v)] and [v && ...] test. *)
Definition truthy (v : js_value) : bool :=
  match v with
  | JsUndefined | JsNull => false
  | JsBool b => b
  | JsNumber n => negb (n =? 0)
  | JsString s => negb (String.eqb s EmptyString)
  | JsDate _ | JsObject _ | JsArray _ => true
  end.

(** [rows[0]]: reading past the end of an array gives [undefined]. *)
Definition first_row (rows : list js_value) : js_value :=
  nth 0 rows JsUndefined.

Fixpoint lookup_field (k : string) (fields : list (string * js_value))
  : js_value :=
  match fields with
  | [] => JsUndefined
  | (k', v) :: rest => if String.eqb k k' then v else lookup_field k rest
  end.

(** [o.k]; every use in the services is guarded by a truthiness test of
    [o], so the value chosen for a non-object is never observed. *)
Definition get (k : string) (o : js_value) : js_value :=
  match o with
  | JsObject fields => lookup_field k fields
  | _ => JsUndefined
  end.

(** How the client hands a column to JavaScript.  A timestamp becomes
    a [Date], which counts milliseconds: the microseconds below are
    cut off. *)
Definition js_of_int (v : Sql.nullable Z) : js_value :=
  match v with Some n => JsNumber n | None => JsNull end.

Definition js_of_bool (v : Sql.nullable bool) : js_value :=
  match v with Some b => JsBool b | None => JsNull end.

Definition js_of_timestamp (v : Sql.nullable Z) : js_value :=
  match v with Some t => JsDate (t / 1000) | None => JsNull end.

Definition js_of_task (r : Tasks.row) : js_value :=
  JsObject [("id"%string, JsNumber (Tasks.id r));
            ("name"%string, JsString (Tasks.name r));
            ("completed"%string, js_of_bool (Tasks.completed r))].

Definition js_of_work_entry (r : WorkEntries.row) : js_value :=
  JsObject [("id"%string, JsNumber (WorkEntries.id r));
            ("task_id"%string, js_of_int (WorkEntries.task_id r));
            ("started_on"%string, js_of_timestamp (WorkEntries.started_on r));
            ("finished_on"%string,
              js_of_timestamp (WorkEntries.finished_on r))].

(** ** Promises *)

(** The errors of the store the statements can meet, by the name of
    their SQLSTATE: 23505, 23503, 22003, 22021 and 2200H. *)
Inductive sql_error : Type :=
| unique_violation
| foreign_key_violation
| numeric_value_out_of_range
| character_not_in_repertoire
| sequence_generator_limit_exceeded.

(** An awaited call either yields a value or throws; both leave a store
    behind (a failed INSERT has still drawn from its sequence). *)
Inductive outcome (A : Type) : Type :=
| Fulfilled (v : A) (db : database)
| Rejected (e : sql_error) (db : database).
Arguments Fulfilled {A} v db.
Arguments Rejected {A} e db.

Definition Async (A : Type) : Type := database -> outcome A.

Definition ret {A : Type} (v : A) : Async A := fun db => Fulfilled v db.

Definition bind {A B : Type} (m : Async A) (k : A -> Async B) : Async B :=
  fun db =>
    match m db with
    | Fulfilled v db' => k v db'
    | Rejected e db' => Rejected e db'
    end.

Notation "x <- 'await' m ;; k" := (bind m (fun x => k))
  (at level 61, m at next level, right associativity).
Notation "'await' m ;; k" := (bind m (fun _ => k))
  (at level 61, m at next level, right associativity).

(** A value interpolated into a statement is a parameter of the type
    the statement gives it.  A number outside INTEGER, or a text with a
    NUL character, is refused before the statement runs: nothing is
    read, written or drawn from a sequence. *)
Definition integer_parameter {A : Type} (v : Z) (k : Z -> Async A)
  : Async A :=
  fun db =>
    if Sql.is_int4 v then k v db
    else Rejected numeric_value_out_of_range db.

Definition text_parameter {A : Type} (s : string) (k : string -> Async A)
  : Async A :=
  fun db =>
    if Sql.is_text s then k s db
    else Rejected character_not_in_repertoire db.

(** The store an outcome leaves behind. *)
Definition store_of {A : Type} (o : outcome A) : database :=
  match o with
  | Fulfilled _ db => db
  | Rejected _ db => db
  end.

(** ** The statements the services issue

    Each statement is one atomic step of the store.  A SELECT hands back
    the qualifying rows in scan order; UPDATE and INSERT hand back an
    empty array.  An INSERT puts its row at the end of the scan.  An
    UPDATE is written as leaving each row at its place; the store makes
    no promise on the place of a row it has rewritten, and the services
    cannot tell: a row one of their UPDATEs has touched is completed,
    or finished, and so is returned by neither of the SELECTs whose
    result shows an order among several rows. *)

Definition select_tasks (cond : Tasks.row -> Sql.nullable bool)
  : Async (list js_value) :=
  fun db =>
    Fulfilled
      (map js_of_task (filter (fun r => Sql.qualifies (cond r)) (tasks db)))
      db.

Definition update_tasks (set : Tasks.row -> Tasks.row)
    (cond : Tasks.row -> Sql.nullable bool) : Async (list js_value) :=
  fun db =>
    Fulfilled []
      {| tasks :=
           map (fun r => if Sql.qualifies (cond r) then set r else r)
               (tasks db);
         work_entries := work_entries db;
         tasks_id_seq := tasks_id_seq db;
         work_entries_id_seq := work_entries_id_seq db |}.

(** A SERIAL sequence hands out INTEGER values: once its next value
    is past the last one, [nextval] fails and draws nothing. *)
Definition exhausted (seq : Z) : bool := Sql.int4_max <? seq.

(** [INSERT INTO tasks (name)]: [id] is drawn from the sequence,
    [completed] takes its default; the primary key rejects an [id] that
    is already there. *)
Definition insert_task (name : string) : Async (list js_value) :=
  fun db =>
    let id := tasks_id_seq db in
    if exhausted id then
      Rejected sequence_generator_limit_exceeded db
    else if existsb (fun r => Tasks.id r =? id) (tasks db) then
      Rejected unique_violation
        {| tasks := tasks db;
           work_entries := work_entries db;
           tasks_id_seq := id + 1;
           work_entries_id_seq := work_entries_id_seq db |}
    else
      Fulfilled []
        {| tasks :=
             tasks db ++
             [ {| Tasks.id := id; Tasks.name := name;
                  Tasks.completed := Tasks.completed_default |} ];
           work_entries := work_entries db;
           tasks_id_seq := id + 1;
           work_entries_id_seq := work_entries_id_seq db |}.

Definition select_work_entries
    (cond : WorkEntries.row -> Sql.nullable bool) : Async (list js_value) :=
  fun db =>
    Fulfilled
      (map js_of_work_entry
           (filter (fun r => Sql.qualifies (cond r)) (work_entries db)))
      db.

Definition update_work_entries (set : WorkEntries.row -> WorkEntries.row)
    (cond : WorkEntries.row -> Sql.nullable bool) : Async (list js_value) :=
  fun db =>
    Fulfilled []
      {| tasks := tasks db;
         work_entries :=
           map (fun r => if Sql.qualifies (cond r) then set r else r)
               (work_entries db);
         tasks_id_seq := tasks_id_seq db;
         work_entries_id_seq := work_entries_id_seq db |}.

(** [task_id INTEGER REFERENCES tasks(id)]: a non-NULL [task_id] must be
    the [id] of a task. *)
Definition references_task (db : database) (task_id : Sql.nullable Z)
  : bool :=
  match task_id with
  | None => true
  | Some t => existsb (fun r => Tasks.id r =? t) (tasks db)
  end.

(** [INSERT INTO work_entries (task_id, started_on)]: [id] is drawn from
    the sequence and [finished_on], which has no default, stays NULL. *)
Definition insert_work_entry (task_id started_on : Sql.nullable Z)
  : Async (list js_value) :=
  fun db =>
    let id := work_entries_id_seq db in
    let drawn (rows : list WorkEntries.row) :=
      {| tasks := tasks db;
         work_entries := rows;
         tasks_id_seq := tasks_id_seq db;
         work_entries_id_seq := id + 1 |} in
    if exhausted id then
      Rejected sequence_generator_limit_exceeded db
    else if existsb (fun r => WorkEntries.id r =? id) (work_entries db) then
      Rejected unique_violation (drawn (work_entries db))
    else if negb (references_task db task_id) then
      Rejected foreign_key_violation (drawn (work_entries db))
    else
      Fulfilled []
        (drawn
           (work_entries db ++
            [ {| WorkEntries.id := id;
                 WorkEntries.task_id := task_id;
                 WorkEntries.started_on := started_on;
                 WorkEntries.finished_on := None |} ])).

Section Client.

(** The [sql] client comes from database/database.js and the driver
    behind it.  The one thing of it the services depend on, beyond the
    column types above, is the JavaScript value the driver makes of an
    interval, which it reads off the day and time fields; it is taken
    as a parameter. *)
Variable js_of_interval : Sql.interval -> js_value.

(** [SELECT SUM(expr) AS total_time FROM work_entries WHERE cond]:
    an aggregate without GROUP BY yields exactly one row. *)
Definition select_sum_work_entries
    (expr : WorkEntries.row -> Sql.nullable Sql.interval)
    (cond : WorkEntries.row -> Sql.nullable bool)
  : Async (list js_value) :=
  fun db =>
    let total :=
      Sql.sum
        (map expr
             (filter (fun r => Sql.qualifies (cond r)) (work_entries db)))
    in
    Fulfilled
      [ JsObject
          [("total_time"%string,
             match total with
             | Some i => js_of_interval i
             | None => JsNull
             end)] ]
      db.

End Client.

(** ** app/services/taskService.js *)

Module taskService.

(** [UPDATE tasks SET completed = true WHERE id = $id] *)
Definition completeById (id : Z) : Async unit :=
  await integer_parameter id (fun id =>
          update_tasks
            (Tasks.set_completed (Some true))
            (fun r => Sql.eq_int (Some (Tasks.id r)) (Some id))) ;;
  ret tt.

(** [INSERT INTO tasks (name) VALUES ($name)] *)
Definition create (name : string) : Async unit :=
  await text_parameter name (fun name => insert_task name) ;;
  ret tt.

(** [SELECT * FROM tasks WHERE completed = false] *)
Definition findAllNonCompletedTasks : Async (list js_value) :=
  rows <- await select_tasks
                  (fun r => Sql.eq_bool (Tasks.completed r) (Some false)) ;;
  ret rows.

Definition Unknown : js_value :=
  JsObject [("id"%string, JsNumber 0);
            ("name"%string, JsString "Unknown"%string)].

(** [SELECT * FROM tasks WHERE id = $id] *)
Definition findById (id : Z) : Async js_value :=
  rows <- await integer_parameter id (fun id =>
                  select_tasks
                    (fun r => Sql.eq_int (Some (Tasks.id r)) (Some id))) ;;
  if truthy (JsArray rows) && (0 <? Z.of_nat (List.length rows)) then
    ret (first_row rows)
  else
    ret Unknown.

End taskService.

(** ** app/services/workEntryService.js

    [NOW()] reads the server clock; the two functions whose statement
    calls it take that reading as the argument [now]. *)

Module workEntryService.

(** [INSERT INTO work_entries (task_id, started_on)
    VALUES ($taskId, NOW())] *)
Definition createWorkEntry (taskId : Z) (now : Z) : Async unit :=
  await integer_parameter taskId (fun taskId =>
          insert_work_entry (Some taskId) (Some now)) ;;
  ret tt.

(** [SELECT * FROM work_entries
    WHERE task_id = $taskId AND finished_on IS NULL] *)
Definition findCurrentWorkEntry (taskId : Z) : Async js_value :=
  rows <- await integer_parameter taskId (fun taskId =>
                  select_work_entries
                    (fun r =>
                       Sql.and3
                         (Sql.eq_int (WorkEntries.task_id r) (Some taskId))
                         (Sql.is_null (WorkEntries.finished_on r)))) ;;
  if truthy (JsArray rows) && (0 <? Z.of_nat (List.length rows)) then
    ret (first_row rows)
  else
    ret (JsBool false).

(** [UPDATE work_entries SET finished_on = NOW() WHERE id = $id] *)
Definition finishWorkEntry (id : Z) (now : Z) : Async unit :=
  await integer_parameter id (fun id =>
          update_work_entries
            (WorkEntries.set_finished_on (Some now))
            (fun r => Sql.eq_int (Some (WorkEntries.id r)) (Some id))) ;;
  ret tt.

Section Client.
Variable js_of_interval : Sql.interval -> js_value.

(** [SELECT SUM(finished_on - started_on) AS total_time
    FROM work_entries
    WHERE task_id = $taskId AND finished_on IS NOT NULL] *)
Definition calculateTotalTime (taskId : Z) : Async js_value :=
  rows <- await integer_parameter taskId (fun taskId =>
                  select_sum_work_entries js_of_interval
                    (fun r =>
                       Sql.minus (WorkEntries.finished_on r)
                                 (WorkEntries.started_on r))
                    (fun r =>
                       Sql.and3
                         (Sql.eq_int (WorkEntries.task_id r) (Some taskId))
                         (Sql.is_not_null (WorkEntries.finished_on r)))) ;;
  if truthy (JsArray rows) && truthy (first_row rows)
     && truthy (get "total_time" (first_row rows)) then
    ret (get "total_time" (first_row rows))
  else
    ret (JsNumber 0).
End Client.

End workEntryService.

(** ** Every owned operation, as one step of the store *)

Inductive call : Type :=
| CompleteById (id : Z)
| Create (name : string)
| FindAllNonCompletedTasks
| FindById (id : Z)
| CreateWorkEntry (taskId now : Z)
| FindCurrentWorkEntry (taskId : Z)
| FinishWorkEntry (id now : Z)
| CalculateTotalTime (taskId : Z).

(** The store once the call has settled, fulfilled or rejected. *)
Definition after (js_of_interval : Sql.interval -> js_value) (c : call)
    (db : database)
  : database :=
  match c with
  | CompleteById id => store_of (taskService.completeById id db)
  | Create name => store_of (taskService.create name db)
  | FindAllNonCompletedTasks =>
      store_of (taskService.findAllNonCompletedTasks db)
  | FindById id => store_of (taskService.findById id db)
  | CreateWorkEntry taskId now =>
      store_of (workEntryService.createWorkEntry taskId now db)
  | FindCurrentWorkEntry taskId =>
      store_of (workEntryService.findCurrentWorkEntry taskId db)
  | FinishWorkEntry id now =>
      store_of (workEntryService.finishWorkEntry id now db)
  | CalculateTotalTime taskId =>
      store_of (workEntryService.calculateTotalTime js_of_interval taskId db)
  end.

(** ** Vocabulary of the statements below *)

(** Some task row carries this id. *)
Definition has_task (db : database) (id : Z) : bool :=
  existsb (fun r => Tasks.id r =? id) (tasks db).

(** The value each sequence will hand out next is not yet in use as a
    primary key.  It holds after the migration and is kept by every
    owned operation (see [well_formed_after]). *)
Definition tasks_id_seq_fresh (db : database) : bool :=
  negb (existsb (fun r => Tasks.id r =? tasks_id_seq db) (tasks db)).

Definition work_entries_id_seq_fresh (db : database) : bool :=
  negb (existsb (fun r => WorkEntries.id r =? work_entries_id_seq db)
                (work_entries db)).

(** An entry of the task that has not been finished. *)
Definition open_for (taskId : Z) (r : WorkEntries.row) : bool :=
  match WorkEntries.task_id r, WorkEntries.finished_on r with
  | Some t, None => t =? taskId
  | _, _ => false
  end.

(** An entry of the task that has been finished. *)
Definition closed_for (taskId : Z) (r : WorkEntries.row) : bool :=
  match WorkEntries.task_id r, WorkEntries.finished_on r with
  | Some t, Some _ => t =? taskId
  | _, _ => false
  end.

(** No entry of the task is open except, possibly, the one with this id. *)
Definition only_open_entry (db : database) (taskId id : Z) : bool :=
  forallb (fun r => implb (open_for taskId r) (WorkEntries.id r =? id))
          (work_entries db).

(** [finished_on - started_on] of an entry, where both are set. *)
Definition elapsed (r : WorkEntries.row) : list Sql.interval :=
  match WorkEntries.finished_on r, WorkEntries.started_on r with
  | Some f, Some s => [Sql.justify_hours (f - s)]
  | _, _ => []
  end.

(** The sum of intervals, field by field. *)
Definition total (ds : list Sql.interval) : Sql.interval :=
  fold_right Sql.interval_pl {| Sql.days := 0; Sql.time := 0 |} ds.

Definition not_completed (r : Tasks.row) : bool :=
  match Tasks.completed r with
  | Some false => true
  | _ => false
  end.

(** What the schema and the sequences guarantee of a store. *)
Record well_formed (db : database) : Prop := {
  wf_tasks_pk : NoDup (map Tasks.id (tasks db));
  wf_work_entries_pk : NoDup (map WorkEntries.id (work_entries db));
  wf_tasks_seq : Forall (fun r => Tasks.id r < tasks_id_seq db) (tasks db);
  wf_work_entries_seq :
    Forall (fun r => WorkEntries.id r < work_entries_id_seq db)
           (work_entries db);
  wf_task_id_fk :
    Forall (fun r => references_task db (WorkEntries.task_id r) = true)
           (work_entries db)
}.

(** What identifies a task row for good: [id] and [name] never change. *)
Definition identity (r : Tasks.row) : Z * string :=
  (Tasks.id r, Tasks.name r).

(** How [completeById(id)] relates a task row to the row it leaves. *)
Definition completed_by (id : Z) (r r' : Tasks.row) : Prop :=
  Tasks.id r' = Tasks.id r /\
  Tasks.name r' = Tasks.name r /\
  (Tasks.id r = id -> Tasks.completed r' = Some true) /\
  (Tasks.id r <> id -> r' = r).

(** ** Stores used as concrete inputs *)

Definition write_report : Tasks.row :=
  {| Tasks.id := 1; Tasks.name := "Write report"%string;
     Tasks.completed := Some false |}.

(** One task and no entry: the store after [create("Write report")]. *)
Definition one_task : database :=
  {| tasks := [write_report]; work_entries := [];
     tasks_id_seq := 2; work_entries_id_seq := 1 |}.

(** The same task with one open entry, started at 0: the store after
    [createWorkEntry(1)]. *)
Definition one_open_entry : database :=
  {| tasks := [write_report];
     work_entries :=
       [ {| WorkEntries.id := 1; WorkEntries.task_id := Some 1;
            WorkEntries.started_on := Some 0;
            WorkEntries.finished_on := None |} ];
     tasks_id_seq := 2; work_entries_id_seq := 2 |}.

(** The same task with two entries started at 0 and at 5, both open:
    the store after [createWorkEntry(1)] has run twice. *)
Definition two_open_entries : database :=
  {| tasks := [write_report];
     work_entries :=
       [ {| WorkEntries.id := 1; WorkEntries.task_id := Some 1;
            WorkEntries.started_on := Some 0;
            WorkEntries.finished_on := None |};
         {| WorkEntries.id := 2; WorkEntries.task_id := Some 1;
            WorkEntries.started_on := Some 5;
            WorkEntries.finished_on := None |} ];
     tasks_id_seq := 2; work_entries_id_seq := 3 |}.

(** How [finishWorkEntry(id)] at time [now] relates a work entry to the
    row it leaves. *)
Definition finished_by (id now : Z) (r r' : WorkEntries.row) : Prop :=
  WorkEntries.id r' = WorkEntries.id r /\
  WorkEntries.task_id r' = WorkEntries.task_id r /\
  WorkEntries.started_on r' = WorkEntries.started_on r /\
  (WorkEntries.id r = id -> WorkEntries.finished_on r' = Some now) /\
  (WorkEntries.id r <> id -> r' = r).

(** Some work entry carries this id. *)
Definition has_work_entry (db : database) (id : Z) : bool :=
  existsb (fun r => WorkEntries.id r =? id) (work_entries db).

(** The differences [calculateTotalTime(taskId)] adds up. *)
Definition durations (taskId : Z) (db : database) : list Sql.interval :=
  flat_map elapsed (filter (closed_for taskId) (work_entries db)).

(** ** The escaping helper of the template engine (eta, utils.ts)

    Strings are sequences of characters; the five characters the
    helper looks for are ASCII, so the encoding of the others does not
    matter. *)

Module EtaUtils.

Local Open Scope char_scope.

Definition quot : ascii := "034".

(** The character class of both regular expressions: ampersand, the two
    angle brackets, the double quote and the apostrophe. *)
Definition special (c : ascii) : bool :=
  match c with
  | "&" | "<" | ">" | "034" | "'" => true
  | _ => false
  end.

(** [escMap[s]]; a key that is not in the map gives [undefined]. *)
Definition escMap (c : ascii) : option string :=
  match c with
  | "&" => Some "&amp;"%string
  | "<" => Some "&lt;"%string
  | ">" => Some "&gt;"%string
  | "034" => Some "&quot;"%string
  | "'" => Some "&#39;"%string
  | _ => None
  end.

(** [replaceChar(s)], as [String.prototype.replace] uses its result:
    [undefined] is inserted as the text [undefined]. *)
Definition replaceChar (c : ascii) : string :=
  match escMap c with
  | Some e => e
  | None => "undefined"%string
  end.

(** [test(newStr)] of the regular expression: some character of
    [newStr] is in the class. *)
Fixpoint test (newStr : string) : bool :=
  match newStr with
  | EmptyString => false
  | String c rest => special c || test rest
  end.

(** [newStr.replace(..., replaceChar)] with the global flag: every
    character of the class is replaced, left to right. *)
Fixpoint replace (newStr : string) : string :=
  match newStr with
  | EmptyString => EmptyString
  | String c rest =>
      if special c then (replaceChar c ++ replace rest)%string
      else String c (replace rest)
  end.

(** [XMLEscape(str)], on [newStr = String(str)]. *)
Definition XMLEscape (newStr : string) : string :=
  if test newStr then replace newStr else newStr.

(** The characters of a string. *)
Fixpoint chars (s : string) : list ascii :=
  match s with
  | EmptyString => []
  | String c rest => c :: chars rest
  end.

End EtaUtils.

(** ** Lemmas on the SQL fragment and on rows *)

Lemma qualifies_id_eq (a b : Z) :
  Sql.qualifies (Sql.eq_int (Some a) (Some b)) = (a =? b).
Proof. simpl. destruct (a =? b); reflexivity. Qed.

Lemma qualifies_not_completed (r : Tasks.row) :
  Sql.qualifies (Sql.eq_bool (Tasks.completed r) (Some false))
  = not_completed r.
Proof.
  unfold not_completed.
  destruct (Tasks.completed r) as [[|]|]; reflexivity.
Qed.

Lemma qualifies_open_for (taskId : Z) (r : WorkEntries.row) :
  Sql.qualifies
    (Sql.and3 (Sql.eq_int (WorkEntries.task_id r) (Some taskId))
              (Sql.is_null (WorkEntries.finished_on r)))
  = open_for taskId r.
Proof.
  unfold open_for.
  destruct (WorkEntries.task_id r) as [t|],
           (WorkEntries.finished_on r) as [f|]; simpl;
    try reflexivity; destruct (t =? taskId); reflexivity.
Qed.

Lemma qualifies_closed_for (taskId : Z) (r : WorkEntries.row) :
  Sql.qualifies
    (Sql.and3 (Sql.eq_int (WorkEntries.task_id r) (Some taskId))
              (Sql.is_not_null (WorkEntries.finished_on r)))
  = closed_for taskId r.
Proof.
  unfold closed_for.
  destruct (WorkEntries.task_id r) as [t|],
           (WorkEntries.finished_on r) as [f|]; simpl;
    try reflexivity; destruct (t =? taskId); reflexivity.
Qed.

Lemma js_of_bool_inj (a b : Sql.nullable bool) :
  js_of_bool a = js_of_bool b -> a = b.
Proof.
  destruct a as [x|], b as [y|]; simpl; intro H;
    try discriminate; congruence.
Qed.

Lemma js_of_task_inj (r r' : Tasks.row) :
  js_of_task r = js_of_task r' -> r = r'.
Proof.
  destruct r as [i n c], r' as [i' n' c']. unfold js_of_task; simpl.
  intro H. injection H as Hi Hn Hc.
  apply js_of_bool_inj in Hc. congruence.
Qed.

(** [rows.length > 0 ? rows[0] : d] over a SELECT is the first
    qualifying row of the scan. *)
Lemma first_row_select {A : Type} (p : A -> bool) (f : A -> js_value)
    (d : js_value) (l : list A) :
  (if truthy (JsArray (map f (filter p l)))
      && (0 <? Z.of_nat (List.length (map f (filter p l))))
   then first_row (map f (filter p l)) else d)
  = match find p l with Some r => f r | None => d end.
Proof.
  induction l as [|x l IH]; simpl.
  - reflexivity.
  - destruct (p x) eqn:Hp.
    + reflexivity.
    + exact IH.
Qed.

Lemma interval_pl_zero (v : Sql.interval) :
  Sql.interval_pl v {| Sql.days := 0; Sql.time := 0 |} = v.
Proof.
  destruct v as [d t]. unfold Sql.interval_pl; simpl.
  rewrite !Z.add_0_r. reflexivity.
Qed.

Lemma sum_elapsed (taskId : Z) (rows : list WorkEntries.row) :
  Sql.sum
    (map (fun r => Sql.minus (WorkEntries.finished_on r)
                             (WorkEntries.started_on r))
         (filter (closed_for taskId) rows))
  = match flat_map elapsed (filter (closed_for taskId) rows) with
    | [] => None
    | ds => Some (total ds)
    end.
Proof.
  induction (filter (closed_for taskId) rows) as [|r l IH]; simpl.
  - reflexivity.
  - unfold elapsed at 1.
    destruct (WorkEntries.finished_on r) as [f|],
             (WorkEntries.started_on r) as [s|]; simpl; try exact IH.
    rewrite IH. destruct (flat_map elapsed l) as [|d ds]; simpl.
    + rewrite interval_pl_zero. reflexivity.
    + reflexivity.
Qed.

Lemma filter_ext_eq {A : Type} (p q : A -> bool) (l : list A) :
  (forall x, p x = q x) -> filter p l = filter q l.
Proof. intro H. apply filter_ext. exact H. Qed.

(** The statements of the services, with the type of their parameter
    checked first and their WHERE clause read in two-valued terms. *)
Lemma findAllNonCompletedTasks_rows (db : database) :
  taskService.findAllNonCompletedTasks db
  = Fulfilled (map js_of_task (filter not_completed (tasks db))) db.
Proof.
  unfold taskService.findAllNonCompletedTasks, bind, select_tasks, ret.
  rewrite (filter_ext_eq _ not_completed) by apply qualifies_not_completed.
  reflexivity.
Qed.

Lemma findCurrentWorkEntry_find (taskId : Z) (db : database) :
  workEntryService.findCurrentWorkEntry taskId db
  = if Sql.is_int4 taskId then
      Fulfilled
        (match find (open_for taskId) (work_entries db) with
         | Some r => js_of_work_entry r
         | None => JsBool false
         end) db
    else Rejected numeric_value_out_of_range db.
Proof.
  unfold workEntryService.findCurrentWorkEntry, bind, integer_parameter,
    select_work_entries.
  destruct (Sql.is_int4 taskId); [|reflexivity].
  rewrite (filter_ext_eq _ (open_for taskId))
    by (intro r; apply qualifies_open_for).
  rewrite <- (first_row_select (open_for taskId) js_of_work_entry).
  destruct (_ && _); reflexivity.
Qed.

Lemma completeById_store (id : Z) (db : database) :
  taskService.completeById id db
  = if Sql.is_int4 id then
      Fulfilled tt
        {| tasks :=
             map (fun r => if Tasks.id r =? id
                           then Tasks.set_completed (Some true) r else r)
                 (tasks db);
           work_entries := work_entries db;
           tasks_id_seq := tasks_id_seq db;
           work_entries_id_seq := work_entries_id_seq db |}
    else Rejected numeric_value_out_of_range db.
Proof.
  unfold taskService.completeById, bind, integer_parameter, update_tasks,
    ret.
  destruct (Sql.is_int4 id); [|reflexivity].
  do 2 f_equal. apply map_ext. intro r.
  rewrite qualifies_id_eq. reflexivity.
Qed.

Lemma finishWorkEntry_store (id now : Z) (db : database) :
  workEntryService.finishWorkEntry id now db
  = if Sql.is_int4 id then
      Fulfilled tt
        {| tasks := tasks db;
           work_entries :=
             map (fun r => if WorkEntries.id r =? id
                           then WorkEntries.set_finished_on (Some now) r
                           else r)
                 (work_entries db);
           tasks_id_seq := tasks_id_seq db;
           work_entries_id_seq := work_entries_id_seq db |}
    else Rejected numeric_value_out_of_range db.
Proof.
  unfold workEntryService.finishWorkEntry, bind, integer_parameter,
    update_work_entries, ret.
  destruct (Sql.is_int4 id); [|reflexivity].
  do 2 f_equal. apply map_ext. intro r.
  rewrite qualifies_id_eq. reflexivity.
Qed.

Lemma findById_find (id : Z) (db : database) :
  taskService.findById id db
  = if Sql.is_int4 id then
      Fulfilled
        (match find (fun r => Tasks.id r =? id) (tasks db) with
         | Some r => js_of_task r
         | None => taskService.Unknown
         end) db
    else Rejected numeric_value_out_of_range db.
Proof.
  unfold taskService.findById, bind, integer_parameter, select_tasks.
  destruct (Sql.is_int4 id); [|reflexivity].
  rewrite (filter_ext_eq _ (fun r => Tasks.id r =? id))
    by (intro r; apply qualifies_id_eq).
  rewrite <- (first_row_select (fun r => Tasks.id r =? id) js_of_task).
  destruct (_ && _); reflexivity.
Qed.

Lemma calculateTotalTime_durations
    (js_of_interval : Sql.interval -> js_value) (taskId : Z)
    (db : database) :
  workEntryService.calculateTotalTime js_of_interval taskId db
  = if Sql.is_int4 taskId then
      Fulfilled
        (match durations taskId db with
         | [] => JsNumber 0
         | ds =>
             if truthy (js_of_interval (total ds))
             then js_of_interval (total ds)
             else JsNumber 0
         end) db
    else Rejected numeric_value_out_of_range db.
Proof.
  unfold workEntryService.calculateTotalTime, bind, integer_parameter,
    select_sum_work_entries.
  destruct (Sql.is_int4 taskId); [|reflexivity].
  rewrite (filter_ext_eq _ (closed_for taskId))
    by (intro r; apply qualifies_closed_for).
  rewrite sum_elapsed. unfold durations.
  destruct (flat_map elapsed _) as [|d ds]; simpl.
  - reflexivity.
  - destruct (truthy _); reflexivity.
Qed.

(** * The service functions against their specification *)

(** C1, as stated, fails for a [taskId] outside INTEGER: the statement
    is refused with a numeric-value-out-of-range error and the call
    throws instead of returning [0]. *)
Lemma calculateTotalTime_rejects_out_of_range :
  Sql.is_int4 2147483648 = false /\
  forall js_of_interval,
    workEntryService.calculateTotalTime js_of_interval 2147483648
      one_open_entry
    = Rejected numeric_value_out_of_range one_open_entry.
Proof. split; [reflexivity|]. intro js. reflexivity. Qed.

(** C1, amended.  For every [taskId] within INTEGER,
    [calculateTotalTime(taskId)] changes nothing and returns the sum,
    field by field, of the intervals [finished_on - started_on] over
    exactly the entries whose [task_id] is [taskId] and whose
    [finished_on] is set (an entry without [started_on] has no
    difference to add); it returns [0] when there is no such difference
    to sum, or when the client's value for the sum is falsy.  For any
    other [taskId] the call is rejected and changes nothing. *)
Theorem calculateTotalTime_sum_of_closed
    (js_of_interval : Sql.interval -> js_value) (taskId : Z)
    (db : database) :
  workEntryService.calculateTotalTime js_of_interval taskId db
  = if Sql.is_int4 taskId then
      Fulfilled
        (match flat_map elapsed
                 (filter (closed_for taskId) (work_entries db))
         with
         | [] => JsNumber 0
         | ds =>
             if truthy (js_of_interval (total ds))
             then js_of_interval (total ds)
             else JsNumber 0
         end) db
    else Rejected numeric_value_out_of_range db.
Proof.
  unfold workEntryService.calculateTotalTime, bind, integer_parameter,
    select_sum_work_entries.
  destruct (Sql.is_int4 taskId); [|reflexivity].
  rewrite (filter_ext_eq _ (closed_for taskId))
    by (intro r; apply qualifies_closed_for).
  rewrite sum_elapsed.
  destruct (flat_map elapsed _) as [|d ds]; simpl.
  - reflexivity.
  - destruct (truthy _); reflexivity.
Qed.

(** C2, as stated, fails for an [id] outside INTEGER: no row has that
    id, yet the call throws instead of returning the Unknown object. *)
Lemma findById_rejects_out_of_range :
  Sql.is_int4 2147483648 = false /\
  has_task one_task 2147483648 = false /\
  taskService.findById 2147483648 one_task
  = Rejected numeric_value_out_of_range one_task.
Proof. repeat split. Qed.

(** C2, amended.  For every [id] within INTEGER, [findById(id)]
    changes nothing and returns the first task row whose [id] matches
    when there is one, and the object [{ id: 0, name: "Unknown" }] when
    there is none.  For any other [id] the call is rejected and changes
    nothing. *)
Theorem findById_first_match_or_Unknown (id : Z) (db : database) :
  taskService.findById id db
  = if Sql.is_int4 id then
      Fulfilled
        (match find (fun r => Tasks.id r =? id) (tasks db) with
         | Some r => js_of_task r
         | None =>
             JsObject [("id"%string, JsNumber 0);
                       ("name"%string, JsString "Unknown"%string)]
         end) db
    else Rejected numeric_value_out_of_range db.
Proof.
  unfold taskService.findById, bind, integer_parameter, select_tasks.
  destruct (Sql.is_int4 id); [|reflexivity].
  rewrite (filter_ext_eq _ (fun r => Tasks.id r =? id))
    by (intro r; apply qualifies_id_eq).
  rewrite <- (first_row_select (fun r => Tasks.id r =? id) js_of_task).
  destruct (_ && _); reflexivity.
Qed.

(** C4. [findAllNonCompletedTasks()] changes nothing and returns, up to
    order, exactly the task rows whose [completed] is false: each of
    them is returned, nothing else is, and no row whose [completed] is
    true is. *)
Theorem findAllNonCompletedTasks_exact (db : database) :
  exists rows,
    taskService.findAllNonCompletedTasks db = Fulfilled rows db /\
    Permutation rows
      (map js_of_task
           (filter (fun r => match Tasks.completed r with
                             | Some false => true
                             | _ => false
                             end) (tasks db))) /\
    (forall r, In r (tasks db) -> Tasks.completed r = Some false ->
               In (js_of_task r) rows) /\
    (forall o, In o rows ->
               exists r, In r (tasks db) /\ Tasks.completed r = Some false /\
                         o = js_of_task r) /\
    (forall r, In r (tasks db) -> Tasks.completed r = Some true ->
               ~ In (js_of_task r) rows).
Proof.
  exists (map js_of_task (filter not_completed (tasks db))).
  split; [apply findAllNonCompletedTasks_rows|].
  split; [apply Permutation_refl|].
  assert (Hin : forall o,
             In o (map js_of_task (filter not_completed (tasks db))) ->
             exists r, In r (tasks db) /\ Tasks.completed r = Some false /\
                       o = js_of_task r).
  { intros o Ho. apply in_map_iff in Ho. destruct Ho as [r [Ho Hr]].
    apply filter_In in Hr. destruct Hr as [Hr Hc].
    exists r. repeat split; auto.
    unfold not_completed in Hc.
    destruct (Tasks.completed r) as [[|]|]; congruence. }
  repeat split.
  - intros r Hr Hc. apply in_map. apply filter_In. split; [exact Hr|].
    unfold not_completed. rewrite Hc. reflexivity.
  - exact Hin.
  - intros r Hr Hc Ho. destruct (Hin _ Ho) as [r' [_ [Hc' Heq]]].
    apply js_of_task_inj in Heq. subst r'. congruence.
Qed.

(** ** Lemmas on scans and updates *)

Lemma find_none_of_all_false {A : Type} (p : A -> bool) (l : list A) :
  (forall x, In x l -> p x = false) -> find p l = None.
Proof.
  induction l as [|x l IH]; simpl; intro H.
  - reflexivity.
  - rewrite (H x (or_introl eq_refl)). apply IH.
    intros y Hy. apply H. right. exact Hy.
Qed.

Lemma find_some_of_In {A : Type} (p : A -> bool) (l : list A) (x : A) :
  In x l -> p x = true -> exists y, find p l = Some y /\ p y = true.
Proof.
  intros Hx Hp. destruct (find p l) as [y|] eqn:Hf.
  - exists y. split; [reflexivity|]. apply (find_some _ _ Hf).
  - rewrite (find_none _ _ Hf x Hx) in Hp. discriminate.
Qed.

Lemma existsb_id_false {A : Type} (key : A -> Z) (k : Z) (l : list A) :
  existsb (fun r => key r =? k) l = false ->
  forall r, In r l -> (key r =? k) = false.
Proof.
  intros H r Hr. destruct (key r =? k) eqn:E; [|reflexivity].
  assert (Ht : existsb (fun r => key r =? k) l = true)
    by (apply existsb_exists; exists r; auto).
  congruence.
Qed.

Lemma update_untouched {A : Type} (key : A -> Z) (k : Z) (set : A -> A)
    (l : list A) :
  existsb (fun r => key r =? k) l = false ->
  map (fun r => if key r =? k then set r else r) l = l.
Proof.
  intro H. rewrite <- (map_id l) at 2. apply map_ext_in.
  intros r Hr. rewrite (existsb_id_false key k l H r Hr). reflexivity.
Qed.

Lemma not_completed_set_true (r : Tasks.row) :
  not_completed (Tasks.set_completed (Some true) r) = false.
Proof. reflexivity. Qed.

Lemma open_for_set_finished (taskId now : Z) (r : WorkEntries.row) :
  open_for taskId (WorkEntries.set_finished_on (Some now) r) = false.
Proof.
  unfold open_for; simpl. destruct (WorkEntries.task_id r); reflexivity.
Qed.

Lemma open_for_fields (taskId : Z) (r : WorkEntries.row) :
  open_for taskId r = true ->
  WorkEntries.task_id r = Some taskId /\ WorkEntries.finished_on r = None.
Proof.
  unfold open_for.
  destruct (WorkEntries.task_id r) as [t|],
           (WorkEntries.finished_on r) as [f|]; try discriminate.
  intro H. apply Z.eqb_eq in H. subst t. split; reflexivity.
Qed.

(** ** The concrete stores are reached by the services themselves *)

Lemma one_task_reached :
  taskService.create "Write report" V1_initial_schema
  = Fulfilled tt one_task.
Proof. reflexivity. Qed.

Lemma one_open_entry_reached :
  workEntryService.createWorkEntry 1 0 one_task
  = Fulfilled tt one_open_entry.
Proof. reflexivity. Qed.

Lemma two_open_entries_reached :
  workEntryService.createWorkEntry 1 5 one_open_entry
  = Fulfilled tt two_open_entries.
Proof. reflexivity. Qed.

(** C3, as stated, fails: with two open entries of task 1, finishing
    entry 1 leaves entry 2 open, and [findCurrentWorkEntry(1)] returns
    that row instead of [false]. *)
Lemma finishWorkEntry_leaves_other_entry_open :
  exists db',
    workEntryService.finishWorkEntry 1 7 two_open_entries
    = Fulfilled tt db' /\
    workEntryService.findCurrentWorkEntry 1 db'
    = Fulfilled
        (JsObject [("id"%string, JsNumber 2);
                   ("task_id"%string, JsNumber 1);
                   ("started_on"%string, JsDate 0);
                   ("finished_on"%string, JsNull)]) db' /\
    workEntryService.findCurrentWorkEntry 1 db'
    <> Fulfilled (JsBool false) db'.
Proof.
  eexists. split; [reflexivity|]. split; [reflexivity|].
  discriminate.
Qed.

(** C3, amended.  When no entry of the task other than entry [id] is
    open, ids being INTEGER values as the ids of rows are,
    [finishWorkEntry(id)] is fulfilled and leaves no open entry of that
    task, so [findCurrentWorkEntry] for the task returns [false]. *)
Theorem finishWorkEntry_then_no_current_entry
    (id taskId now : Z) (db : database) :
  only_open_entry db taskId id = true ->
  Sql.is_int4 id = true ->
  Sql.is_int4 taskId = true ->
  exists db',
    workEntryService.finishWorkEntry id now db = Fulfilled tt db' /\
    workEntryService.findCurrentWorkEntry taskId db'
    = Fulfilled (JsBool false) db' /\
    (forall r, In r (work_entries db') ->
               WorkEntries.task_id r = Some taskId ->
               WorkEntries.finished_on r <> None).
Proof.
  intros Honly Hid Htask. rewrite finishWorkEntry_store, Hid. eexists.
  split; [reflexivity|].
  assert (Hclosed : forall r,
            In r (map (fun r => if WorkEntries.id r =? id
                                then WorkEntries.set_finished_on (Some now) r
                                else r) (work_entries db)) ->
            open_for taskId r = false).
  { intros r' Hr'. apply in_map_iff in Hr'. destruct Hr' as [r [Heq Hr]].
    subst r'. destruct (WorkEntries.id r =? id) eqn:Hrid.
    - apply open_for_set_finished.
    - unfold only_open_entry in Honly.
      rewrite forallb_forall in Honly. specialize (Honly r Hr).
      rewrite Hrid in Honly. destruct (open_for taskId r); [discriminate|].
      reflexivity. }
  split.
  - rewrite findCurrentWorkEntry_find, Htask. simpl.
    rewrite (find_none_of_all_false _ _ Hclosed). reflexivity.
  - simpl. intros r Hr Ht Hf. specialize (Hclosed r Hr).
    unfold open_for in Hclosed. rewrite Ht, Hf, Z.eqb_refl in Hclosed.
    discriminate.
Qed.

Lemma finishWorkEntry_then_no_current_entry_witness :
  only_open_entry one_open_entry 1 1 = true /\
  Sql.is_int4 1 = true /\
  exists db',
    workEntryService.finishWorkEntry 1 7 one_open_entry
    = Fulfilled tt db' /\
    workEntryService.findCurrentWorkEntry 1 db'
    = Fulfilled (JsBool false) db' /\
    (forall r, In r (work_entries db') ->
               WorkEntries.task_id r = Some 1 ->
               WorkEntries.finished_on r <> None).
Proof.
  split; [reflexivity|]. split; [reflexivity|].
  apply (finishWorkEntry_then_no_current_entry 1 1 7 one_open_entry);
    reflexivity.
Defined.

(** C5. After [completeById(id)], for an [id] within INTEGER as the id
    of every existing task is, the call is fulfilled and no row
    returned by [findAllNonCompletedTasks()] carries that [id]: a task
    with this id, existing before the call, is no longer listed.  (An
    [id] outside INTEGER is no task's id; the call is then rejected and
    changes nothing.) *)
Theorem completeById_then_not_listed (id : Z) (db : database) :
  if Sql.is_int4 id then
    exists db' rows,
      taskService.completeById id db = Fulfilled tt db' /\
      taskService.findAllNonCompletedTasks db' = Fulfilled rows db' /\
      (forall o, In o rows -> get "id" o <> JsNumber id) /\
      (forall r, In r (tasks db') -> Tasks.id r = id ->
                 ~ In (js_of_task r) rows)
  else
    taskService.completeById id db
    = Rejected numeric_value_out_of_range db.
Proof.
  rewrite completeById_store.
  destruct (Sql.is_int4 id); [|reflexivity].
  eexists. eexists.
  split; [reflexivity|].
  split; [apply findAllNonCompletedTasks_rows|].
  cbn [tasks].
  assert (Hrows : forall r',
            In r' (filter not_completed
                     (map (fun r => if Tasks.id r =? id
                                    then Tasks.set_completed (Some true) r
                                    else r) (tasks db))) ->
            Tasks.id r' <> id).
  { intros r' Hr'. apply filter_In in Hr'. destruct Hr' as [Hin Hnc].
    apply in_map_iff in Hin. destruct Hin as [r [Heq Hr]]. subst r'.
    destruct (Tasks.id r =? id) eqn:Hid.
    - rewrite not_completed_set_true in Hnc. discriminate.
    - apply Z.eqb_neq. exact Hid. }
  split.
  - intros o Ho. apply in_map_iff in Ho. destruct Ho as [r' [Heq Hr']].
    subst o. simpl. intro H. injection H as H.
    exact (Hrows r' Hr' H).
  - intros r _ Hid Ho. apply in_map_iff in Ho.
    destruct Ho as [r' [Heq Hr']]. apply js_of_task_inj in Heq. subst r'.
    exact (Hrows r Hr' Hid).
Qed.

(** C6, as stated, fails for an [id] outside INTEGER: it matches no
    row, yet [completeById(id)] raises a numeric-value-out-of-range
    error. *)
Lemma completeById_rejects_out_of_range :
  has_task two_open_entries 2147483648 = false /\
  taskService.completeById 2147483648 two_open_entries
  = Rejected numeric_value_out_of_range two_open_entries.
Proof. split; reflexivity. Qed.

(** C6, amended.  When [id] is within INTEGER and no task row has it,
    [completeById(id)] is fulfilled (no error is raised) and the store
    it leaves is the store it found. *)
Theorem completeById_missing_is_noop (id : Z) (db : database) :
  Sql.is_int4 id = true ->
  has_task db id = false ->
  taskService.completeById id db = Fulfilled tt db.
Proof.
  intros Hid H. rewrite completeById_store, Hid. unfold has_task in H.
  rewrite (update_untouched Tasks.id id _ _ H).
  destruct db; reflexivity.
Qed.

Lemma completeById_missing_is_noop_witness :
  Sql.is_int4 7 = true /\
  has_task two_open_entries 7 = false /\
  taskService.completeById 7 two_open_entries = Fulfilled tt two_open_entries.
Proof.
  split; [reflexivity|]. split; [reflexivity|].
  apply (completeById_missing_is_noop 7 two_open_entries); reflexivity.
Defined.

(** C7, as stated, fails for a [taskId] that is no task's id: the
    foreign key rejects the INSERT, no row is added, and
    [findCurrentWorkEntry(taskId)] returns [false]. *)
Lemma createWorkEntry_unknown_task_rejected :
  workEntryService.createWorkEntry 2 100 one_task
  = Rejected foreign_key_violation
      {| tasks := [write_report]; work_entries := [];
         tasks_id_seq := 2; work_entries_id_seq := 2 |} /\
  workEntryService.findCurrentWorkEntry 2
    (store_of (workEntryService.createWorkEntry 2 100 one_task))
  = Fulfilled (JsBool false)
      (store_of (workEntryService.createWorkEntry 2 100 one_task)).
Proof. split; reflexivity. Qed.

(** C7, amended.  For a [taskId] within INTEGER that is the id of a
    task, in a store whose next [work_entries] id is unused and not
    past the end of the sequence, [createWorkEntry(taskId)] is fulfilled
    and adds exactly one row, with [task_id = taskId], [started_on] the
    current time and [finished_on] NULL; a following
    [findCurrentWorkEntry(taskId)] returns a row of that task whose
    [finished_on] is [null]. *)
Theorem createWorkEntry_then_current_entry
    (taskId now : Z) (db : database) :
  Sql.is_int4 taskId = true ->
  has_task db taskId = true ->
  work_entries_id_seq_fresh db = true ->
  exhausted (work_entries_id_seq db) = false ->
  exists db',
    workEntryService.createWorkEntry taskId now db = Fulfilled tt db' /\
    work_entries db'
    = work_entries db ++
      [ {| WorkEntries.id := work_entries_id_seq db;
           WorkEntries.task_id := Some taskId;
           WorkEntries.started_on := Some now;
           WorkEntries.finished_on := None |} ] /\
    tasks db' = tasks db /\
    exists o,
      workEntryService.findCurrentWorkEntry taskId db' = Fulfilled o db' /\
      get "task_id" o = JsNumber taskId /\
      get "finished_on" o = JsNull.
Proof.
  intros Hint Htask Hfresh Hleft.
  unfold workEntryService.createWorkEntry, bind, integer_parameter,
    insert_work_entry, ret.
  rewrite Hint, Hleft.
  unfold work_entries_id_seq_fresh in Hfresh.
  apply negb_true_iff in Hfresh. rewrite Hfresh.
  unfold references_task. unfold has_task in Htask. rewrite Htask. simpl.
  eexists. split; [reflexivity|]. simpl.
  split; [reflexivity|]. split; [reflexivity|].
  rewrite findCurrentWorkEntry_find, Hint. simpl.
  set (new := {| WorkEntries.id := work_entries_id_seq db;
                 WorkEntries.task_id := Some taskId;
                 WorkEntries.started_on := Some now;
                 WorkEntries.finished_on := None |}).
  destruct (find_some_of_In (open_for taskId) (work_entries db ++ [new]) new)
    as [r [Hfind Hopen]].
  - apply in_or_app. right. left. reflexivity.
  - unfold open_for, new; simpl. apply Z.eqb_refl.
  - rewrite Hfind. exists (js_of_work_entry r).
    split; [reflexivity|].
    destruct (open_for_fields _ _ Hopen) as [Ht Hf].
    simpl. rewrite Ht, Hf. split; reflexivity.
Qed.

Lemma createWorkEntry_then_current_entry_witness :
  Sql.is_int4 1 = true /\
  has_task one_task 1 = true /\
  work_entries_id_seq_fresh one_task = true /\
  exhausted (work_entries_id_seq one_task) = false /\
  exists db',
    workEntryService.createWorkEntry 1 0 one_task = Fulfilled tt db' /\
    work_entries db'
    = work_entries one_task ++
      [ {| WorkEntries.id := work_entries_id_seq one_task;
           WorkEntries.task_id := Some 1;
           WorkEntries.started_on := Some 0;
           WorkEntries.finished_on := None |} ] /\
    tasks db' = tasks one_task /\
    exists o,
      workEntryService.findCurrentWorkEntry 1 db' = Fulfilled o db' /\
      get "task_id" o = JsNumber 1 /\
      get "finished_on" o = JsNull.
Proof.
  split; [reflexivity|]. split; [reflexivity|]. split; [reflexivity|].
  split; [reflexivity|].
  apply (createWorkEntry_then_current_entry 1 0 one_task); reflexivity.
Defined.

(** C8, as stated, fails for a name that holds a NUL character: TEXT
    has no such value, the INSERT is refused, no row is added and
    [findAllNonCompletedTasks()] lists nothing new. *)
Lemma create_rejects_nul_name :
  taskService.create (String Ascii.zero EmptyString) one_task
  = Rejected character_not_in_repertoire one_task /\
  taskService.findAllNonCompletedTasks one_task
  = Fulfilled [js_of_task write_report] one_task.
Proof. split; reflexivity. Qed.

(** C8, amended.  For every name without a NUL character (empty, or
    already in use), in a store whose next [tasks] id is unused and not
    past the end of the sequence, [create(name)] is fulfilled with no
    value and adds exactly one task row, with the given name and
    [completed] false; the work entries are untouched, and a following
    [findAllNonCompletedTasks()] returns that row. *)
Theorem create_then_listed (name : string) (db : database) :
  Sql.is_text name = true ->
  tasks_id_seq_fresh db = true ->
  exhausted (tasks_id_seq db) = false ->
  exists db' rows,
    taskService.create name db = Fulfilled tt db' /\
    tasks db'
    = tasks db ++
      [ {| Tasks.id := tasks_id_seq db; Tasks.name := name;
           Tasks.completed := Some false |} ] /\
    work_entries db' = work_entries db /\
    taskService.findAllNonCompletedTasks db' = Fulfilled rows db' /\
    In (JsObject [("id"%string, JsNumber (tasks_id_seq db));
                  ("name"%string, JsString name);
                  ("completed"%string, JsBool false)]) rows.
Proof.
  intros Htext Hfresh Hleft.
  unfold taskService.create, bind, text_parameter, insert_task, ret.
  rewrite Htext, Hleft.
  unfold tasks_id_seq_fresh in Hfresh.
  apply negb_true_iff in Hfresh. rewrite Hfresh.
  eexists. eexists. split; [reflexivity|]. cbn [tasks work_entries].
  split; [reflexivity|]. split; [reflexivity|].
  split; [apply findAllNonCompletedTasks_rows|].
  cbn [tasks].
  apply (in_map js_of_task _
           {| Tasks.id := tasks_id_seq db; Tasks.name := name;
              Tasks.completed := Some false |}).
  apply filter_In. split; [|reflexivity].
  apply in_or_app. right. left. reflexivity.
Qed.

Lemma create_then_listed_witness :
  Sql.is_text "Write report" = true /\
  tasks_id_seq_fresh one_task = true /\
  exhausted (tasks_id_seq one_task) = false /\
  exists db' rows,
    taskService.create "Write report" one_task = Fulfilled tt db' /\
    tasks db'
    = tasks one_task ++
      [ {| Tasks.id := tasks_id_seq one_task;
           Tasks.name := "Write report"%string;
           Tasks.completed := Some false |} ] /\
    work_entries db' = work_entries one_task /\
    taskService.findAllNonCompletedTasks db' = Fulfilled rows db' /\
    In (JsObject [("id"%string, JsNumber (tasks_id_seq one_task));
                  ("name"%string, JsString "Write report"%string);
                  ("completed"%string, JsBool false)]) rows.
Proof.
  split; [reflexivity|]. split; [reflexivity|]. split; [reflexivity|].
  apply (create_then_listed "Write report" one_task); reflexivity.
Defined.

(** ** Frame lemmas *)

Lemma update_completed_by (id : Z) (l : list Tasks.row) :
  Forall2 (completed_by id) l
    (map (fun r => if Tasks.id r =? id
                   then Tasks.set_completed (Some true) r else r) l).
Proof.
  induction l as [|r l IH]; simpl; constructor; [|exact IH].
  unfold completed_by. destruct (Tasks.id r =? id) eqn:Hid; simpl.
  - apply Z.eqb_eq in Hid. repeat split; auto. intro H. contradiction.
  - apply Z.eqb_neq in Hid. repeat split; auto. intro H. contradiction.
Qed.

Lemma update_identity (id : Z) (l : list Tasks.row) :
  map identity
    (map (fun r => if Tasks.id r =? id
                   then Tasks.set_completed (Some true) r else r) l)
  = map identity l.
Proof.
  rewrite map_map. apply map_ext. intro r.
  destruct (Tasks.id r =? id); reflexivity.
Qed.

Lemma findById_store (id : Z) (db : database) :
  store_of (taskService.findById id db) = db.
Proof. rewrite findById_find. destruct (Sql.is_int4 id); reflexivity. Qed.

Lemma findCurrentWorkEntry_store (taskId : Z) (db : database) :
  store_of (workEntryService.findCurrentWorkEntry taskId db) = db.
Proof.
  rewrite findCurrentWorkEntry_find.
  destruct (Sql.is_int4 taskId); reflexivity.
Qed.

Lemma calculateTotalTime_store
    (js_of_interval : Sql.interval -> js_value) (taskId : Z)
    (db : database) :
  store_of (workEntryService.calculateTotalTime js_of_interval taskId db)
  = db.
Proof.
  rewrite calculateTotalTime_durations.
  destruct (Sql.is_int4 taskId); reflexivity.
Qed.

Lemma create_tasks (name : string) (db : database) :
  exists added,
    tasks (store_of (taskService.create name db)) = tasks db ++ added.
Proof.
  unfold taskService.create, bind, text_parameter, insert_task, ret.
  destruct (Sql.is_text name);
    [|exists []; rewrite app_nil_r; reflexivity].
  destruct (exhausted _);
    [exists []; rewrite app_nil_r; reflexivity|].
  destruct (existsb _ _); simpl.
  - exists []. rewrite app_nil_r. reflexivity.
  - eexists. reflexivity.
Qed.

Lemma createWorkEntry_tasks (taskId now : Z) (db : database) :
  tasks (store_of (workEntryService.createWorkEntry taskId now db))
  = tasks db.
Proof.
  unfold workEntryService.createWorkEntry, bind, integer_parameter,
    insert_work_entry, ret.
  destruct (Sql.is_int4 taskId); [|reflexivity].
  destruct (exhausted _); [reflexivity|].
  destruct (existsb _ _); [reflexivity|].
  destruct (negb _); reflexivity.
Qed.

Lemma completeById_tasks_identity (id : Z) (db : database) :
  map identity (tasks (store_of (taskService.completeById id db)))
  = map identity (tasks db).
Proof.
  rewrite completeById_store. destruct (Sql.is_int4 id); [|reflexivity].
  simpl. apply update_identity.
Qed.

Lemma finishWorkEntry_tasks (id now : Z) (db : database) :
  tasks (store_of (workEntryService.finishWorkEntry id now db)) = tasks db.
Proof.
  rewrite finishWorkEntry_store. destruct (Sql.is_int4 id); reflexivity.
Qed.

Lemma after_keeps_tasks (js_of_interval : Sql.interval -> js_value)
    (c : call) (db : database) :
  exists added,
    map identity (tasks (after js_of_interval c db))
    = map identity (tasks db) ++ added.
Proof.
  destruct c; cbn [after].
  - rewrite completeById_tasks_identity.
    exists []. rewrite app_nil_r. reflexivity.
  - destruct (create_tasks name db) as [added H]. rewrite H.
    exists (map identity added). apply map_app.
  - rewrite findAllNonCompletedTasks_rows. simpl.
    exists []. rewrite app_nil_r. reflexivity.
  - rewrite findById_store. exists []. rewrite app_nil_r. reflexivity.
  - rewrite createWorkEntry_tasks.
    exists []. rewrite app_nil_r. reflexivity.
  - rewrite findCurrentWorkEntry_store.
    exists []. rewrite app_nil_r. reflexivity.
  - rewrite finishWorkEntry_tasks.
    exists []. rewrite app_nil_r. reflexivity.
  - rewrite calculateTotalTime_store.
    exists []. rewrite app_nil_r. reflexivity.
Qed.

(** C9. [completeById(id)], for an [id] within INTEGER, leaves every
    task row in place with its [id] and [name]; the rows carrying [id]
    end with [completed] true and every other row is untouched; the
    work entries and both sequences are unchanged.  For any other [id]
    the call is rejected and the store is as it was.  Whatever owned
    operation runs, the task rows there before are all still there
    after, with their [id] and [name]: rows are only ever added, behind
    them. *)
Theorem completeById_frame_and_no_delete
    (js_of_interval : Sql.interval -> js_value) (id : Z) (c : call)
    (db : database) :
  (if Sql.is_int4 id then
     exists db',
       taskService.completeById id db = Fulfilled tt db' /\
       Forall2 (completed_by id) (tasks db) (tasks db') /\
       work_entries db' = work_entries db /\
       tasks_id_seq db' = tasks_id_seq db /\
       work_entries_id_seq db' = work_entries_id_seq db
   else
     taskService.completeById id db
     = Rejected numeric_value_out_of_range db) /\
  (exists added,
     map identity (tasks (after js_of_interval c db))
     = map identity (tasks db) ++ added).
Proof.
  split.
  - rewrite completeById_store. destruct (Sql.is_int4 id); [|reflexivity].
    eexists. split; [reflexivity|]. simpl.
    split; [apply update_completed_by|]. repeat split.
  - apply after_keeps_tasks.
Qed.

(** C10. [completeById] is idempotent: in every store, running
    [completeById(id)] twice in a row has the outcome of running it
    once. *)
Theorem completeById_idempotent (id : Z) (db : database) :
  (await taskService.completeById id ;; taskService.completeById id) db
  = taskService.completeById id db.
Proof.
  unfold bind at 1. rewrite (completeById_store id db).
  destruct (Sql.is_int4 id) eqn:Hint; [|reflexivity].
  cbv beta iota. rewrite completeById_store, Hint. simpl. do 2 f_equal.
  rewrite map_map. apply map_ext. intro r.
  destruct (Tasks.id r =? id) eqn:Hid; simpl; rewrite Hid; reflexivity.
Qed.

(** ** The guarantees of the schema are kept

    The migration leaves a well-formed store and every owned operation,
    fulfilled or rejected, takes a well-formed store to a well-formed
    store; in a well-formed store both sequences are fresh. *)

Lemma below_seq_unused {A : Type} (key : A -> Z) (seq : Z) (l : list A) :
  Forall (fun r => key r < seq) l ->
  existsb (fun r => key r =? seq) l = false.
Proof.
  induction 1 as [|r l Hr _ IH]; simpl.
  - reflexivity.
  - rewrite IH, orb_false_r. apply Z.eqb_neq. lia.
Qed.

Lemma below_seq_succ {A : Type} (key : A -> Z) (seq : Z) (l : list A) :
  Forall (fun r => key r < seq) l -> Forall (fun r => key r < seq + 1) l.
Proof. apply Forall_impl. intros r Hr. lia. Qed.

Lemma NoDup_key_snoc {A : Type} (key : A -> Z) (l : list A) (x : A) :
  NoDup (map key l) -> Forall (fun r => key r < key x) l ->
  NoDup (map key (l ++ [x])).
Proof.
  intros Hnd Hlt. rewrite map_app. apply NoDup_app.
  - exact Hnd.
  - simpl. constructor; [intros []|constructor].
  - intros a Ha [Hx|[]]. apply in_map_iff in Ha.
    destruct Ha as [r [Hr Hin]]. rewrite Forall_forall in Hlt.
    specialize (Hlt r Hin). lia.
Qed.

Lemma references_task_In (db : database) (t : Sql.nullable Z) :
  references_task db t = true <->
  match t with
  | Some k => In k (map Tasks.id (tasks db))
  | None => True
  end.
Proof.
  destruct t as [k|]; simpl; [|tauto].
  rewrite existsb_exists, in_map_iff. split.
  - intros [r [Hr Hk]]. apply Z.eqb_eq in Hk. exists r. auto.
  - intros [r [Hk Hr]]. exists r. split; [exact Hr|]. apply Z.eqb_eq, Hk.
Qed.

Lemma references_task_mono (db db' : database) (t : Sql.nullable Z) :
  incl (map Tasks.id (tasks db)) (map Tasks.id (tasks db')) ->
  references_task db t = true -> references_task db' t = true.
Proof.
  intros Hincl H. apply references_task_In. apply references_task_In in H.
  destruct t as [k|]; [apply Hincl, H|exact I].
Qed.

Lemma update_tasks_ids (id : Z) (l : list Tasks.row) :
  map Tasks.id
    (map (fun r => if Tasks.id r =? id
                   then Tasks.set_completed (Some true) r else r) l)
  = map Tasks.id l.
Proof.
  rewrite map_map. apply map_ext. intro r.
  destruct (Tasks.id r =? id); reflexivity.
Qed.

Lemma update_work_entries_ids (id now : Z) (l : list WorkEntries.row) :
  map WorkEntries.id
    (map (fun r => if WorkEntries.id r =? id
                   then WorkEntries.set_finished_on (Some now) r else r) l)
  = map WorkEntries.id l.
Proof.
  rewrite map_map. apply map_ext. intro r.
  destruct (WorkEntries.id r =? id); reflexivity.
Qed.

Lemma well_formed_initial : well_formed V1_initial_schema.
Proof. constructor; simpl; constructor. Qed.

Lemma well_formed_fresh (db : database) :
  well_formed db ->
  tasks_id_seq_fresh db = true /\ work_entries_id_seq_fresh db = true.
Proof.
  intros [_ _ Ht Hw _].
  unfold tasks_id_seq_fresh, work_entries_id_seq_fresh.
  rewrite (below_seq_unused Tasks.id _ _ Ht).
  rewrite (below_seq_unused WorkEntries.id _ _ Hw).
  split; reflexivity.
Qed.

Lemma well_formed_completeById (id : Z) (db : database) :
  well_formed db -> well_formed (store_of (taskService.completeById id db)).
Proof.
  intros Hwf. rewrite completeById_store.
  destruct (Sql.is_int4 id); [|exact Hwf].
  destruct Hwf as [Hpk Hpk' Ht Hw Hfk].
  constructor; simpl.
  - rewrite update_tasks_ids. exact Hpk.
  - exact Hpk'.
  - apply Forall_map. revert Ht. apply Forall_impl. intros r Hr.
    destruct (Tasks.id r =? id); exact Hr.
  - exact Hw.
  - revert Hfk. apply Forall_impl. intros r.
    apply references_task_mono. simpl. rewrite update_tasks_ids.
    apply incl_refl.
Qed.

Lemma well_formed_create (name : string) (db : database) :
  well_formed db -> well_formed (store_of (taskService.create name db)).
Proof.
  intros Hwf.
  unfold taskService.create, bind, text_parameter, insert_task, ret.
  destruct (Sql.is_text name); [|exact Hwf].
  destruct (exhausted _); [exact Hwf|].
  destruct Hwf as [Hpk Hpk' Ht Hw Hfk].
  rewrite (below_seq_unused Tasks.id _ _ Ht).
  constructor; simpl.
  - apply (NoDup_key_snoc Tasks.id); assumption.
  - exact Hpk'.
  - apply Forall_app. split; [apply below_seq_succ, Ht|].
    constructor; [simpl; lia|constructor].
  - exact Hw.
  - revert Hfk. apply Forall_impl. intros r.
    apply references_task_mono. simpl. rewrite map_app.
    apply incl_appl, incl_refl.
Qed.

Lemma well_formed_createWorkEntry (taskId now : Z) (db : database) :
  well_formed db ->
  well_formed (store_of (workEntryService.createWorkEntry taskId now db)).
Proof.
  intros Hwf.
  unfold workEntryService.createWorkEntry, bind, integer_parameter,
    insert_work_entry, ret.
  destruct (Sql.is_int4 taskId); [|exact Hwf].
  destruct (exhausted _); [exact Hwf|].
  destruct Hwf as [Hpk Hpk' Ht Hw Hfk].
  rewrite (below_seq_unused WorkEntries.id _ _ Hw).
  destruct (references_task db (Some taskId)) eqn:Href;
    cbn [negb]; constructor; simpl; try assumption;
    try (apply below_seq_succ, Hw).
  - apply (NoDup_key_snoc WorkEntries.id); assumption.
  - apply Forall_app. split; [apply below_seq_succ, Hw|].
    constructor; [simpl; lia|constructor].
  - apply Forall_app. split.
    + revert Hfk. apply Forall_impl. intros r.
      apply references_task_mono. apply incl_refl.
    + constructor; [exact Href|constructor].
Qed.

Lemma well_formed_finishWorkEntry (id now : Z) (db : database) :
  well_formed db ->
  well_formed (store_of (workEntryService.finishWorkEntry id now db)).
Proof.
  intros Hwf. rewrite finishWorkEntry_store.
  destruct (Sql.is_int4 id); [|exact Hwf].
  destruct Hwf as [Hpk Hpk' Ht Hw Hfk].
  constructor; simpl.
  - exact Hpk.
  - rewrite update_work_entries_ids. exact Hpk'.
  - exact Ht.
  - apply Forall_map. revert Hw. apply Forall_impl. intros r Hr.
    destruct (WorkEntries.id r =? id); exact Hr.
  - apply Forall_map. revert Hfk. apply Forall_impl. intros r Hr.
    destruct (WorkEntries.id r =? id); exact Hr.
Qed.

Lemma well_formed_after (js_of_interval : Sql.interval -> js_value)
    (c : call) (db : database) :
  well_formed db -> well_formed (after js_of_interval c db).
Proof.
  intro H. destruct c; cbn [after].
  - apply well_formed_completeById, H.
  - apply well_formed_create, H.
  - rewrite findAllNonCompletedTasks_rows. exact H.
  - rewrite findById_store. exact H.
  - apply well_formed_createWorkEntry, H.
  - rewrite findCurrentWorkEntry_store. exact H.
  - apply well_formed_finishWorkEntry, H.
  - rewrite calculateTotalTime_store. exact H.
Qed.

(** X20. Every store reached from the migration by owned operations is
    well-formed: ids are unique in both tables and below their
    sequence, and every work entry's [task_id] is NULL or the id of a
    task. *)
Lemma well_formed_reachable (js_of_interval : Sql.interval -> js_value)
    (cs : list call) :
  well_formed (fold_left (fun db c => after js_of_interval c db) cs
                         V1_initial_schema).
Proof.
  assert (H : forall db, well_formed db ->
            well_formed (fold_left (fun db c => after js_of_interval c db)
                                   cs db)).
  { induction cs as [|c cs IH]; simpl; intros db Hdb.
    - exact Hdb.
    - apply IH, well_formed_after, Hdb. }
  apply H, well_formed_initial.
Qed.

(** ** The scenario of the specification

    Create the task "Write report", start an entry on it at [t0] and
    finish that entry at [t1]: the total time of the task is what the
    driver makes of the interval [t1 - t0] (or [0] if that value is
    falsy). *)
Lemma write_report_scenario
    (js_of_interval : Sql.interval -> js_value) (t0 t1 : Z) :
  (await taskService.create "Write report" ;;
   await workEntryService.createWorkEntry 1 t0 ;;
   await workEntryService.finishWorkEntry 1 t1 ;;
   workEntryService.calculateTotalTime js_of_interval 1) V1_initial_schema
  = Fulfilled
      (if truthy (js_of_interval (Sql.justify_hours (t1 - t0)))
       then js_of_interval (Sql.justify_hours (t1 - t0)) else JsNumber 0)
      {| tasks := [write_report];
         work_entries :=
           [ {| WorkEntries.id := 1; WorkEntries.task_id := Some 1;
                WorkEntries.started_on := Some t0;
                WorkEntries.finished_on := Some t1 |} ];
         tasks_id_seq := 2; work_entries_id_seq := 2 |}.
Proof.
  unfold bind at 1 2 3.
  change (taskService.create "Write report" V1_initial_schema)
    with (Fulfilled tt one_task).
  cbv beta iota.
  change (workEntryService.createWorkEntry 1 t0 one_task)
    with (Fulfilled tt
            {| tasks := [write_report];
               work_entries :=
                 [ {| WorkEntries.id := 1; WorkEntries.task_id := Some 1;
                      WorkEntries.started_on := Some t0;
                      WorkEntries.finished_on := None |} ];
               tasks_id_seq := 2; work_entries_id_seq := 2 |}).
  cbv beta iota.
  rewrite finishWorkEntry_store. change (Sql.is_int4 1) with true.
  cbv beta iota.
  rewrite calculateTotalTime_durations. change (Sql.is_int4 1) with true.
  cbv iota. cbn -[Sql.justify_hours total].
  unfold total. cbn [fold_right]. rewrite interval_pl_zero. reflexivity.
Qed.

(** An empty name is accepted like any other. *)
Lemma create_empty_name :
  taskService.create EmptyString V1_initial_schema
  = Fulfilled tt
      {| tasks := [ {| Tasks.id := 1; Tasks.name := EmptyString;
                       Tasks.completed := Some false |} ];
         work_entries := [];
         tasks_id_seq := 2; work_entries_id_seq := 1 |}.
Proof. reflexivity. Qed.

(** Two entries of 13 hours sum to 26 hours of time, while one entry
    of 26 hours is a day and 2 hours: the sum is taken field by field. *)
Lemma sum_keeps_fields_apart :
  total [Sql.justify_hours 46800000000; Sql.justify_hours 46800000000]
  = {| Sql.days := 0; Sql.time := 93600000000 |} /\
  total [Sql.justify_hours 93600000000]
  = {| Sql.days := 1; Sql.time := 7200000000 |}.
Proof. split; reflexivity. Qed.

(** * Further properties of the services *)

(** ** Lemmas *)

Lemma total_snoc (ds : list Sql.interval) (d : Sql.interval) :
  total (ds ++ [d]) = Sql.interval_pl (total ds) d.
Proof.
  unfold total. induction ds as [|x ds IH]; simpl.
  - destruct d as [dd dt]. unfold Sql.interval_pl; simpl.
    rewrite !Z.add_0_r. reflexivity.
  - rewrite IH. unfold Sql.interval_pl; simpl.
    rewrite !Z.add_assoc. reflexivity.
Qed.

Lemma is_int4_not_exhausted (v : Z) :
  Sql.is_int4 v = true -> exhausted v = false.
Proof.
  unfold Sql.is_int4, exhausted. intro H.
  apply andb_true_iff in H. destruct H as [_ H].
  apply Z.leb_le in H. apply Z.ltb_ge. exact H.
Qed.

Lemma Forall2_In_l {A B : Type} (R : A -> B -> Prop) (l : list A)
    (l' : list B) :
  Forall2 R l l' -> forall x, In x l -> exists y, In y l' /\ R x y.
Proof.
  induction 1 as [|a b l l' Hab _ IH]; intros x Hx; [contradiction|].
  destruct Hx as [Hx|Hx].
  - subst x. exists b. split; [left; reflexivity|exact Hab].
  - destruct (IH x Hx) as [y [Hy Hxy]]. exists y. split; [right|]; auto.
Qed.

Lemma Forall2_In_r {A B : Type} (R : A -> B -> Prop) (l : list A)
    (l' : list B) :
  Forall2 R l l' -> forall y, In y l' -> exists x, In x l /\ R x y.
Proof.
  induction 1 as [|a b l l' Hab _ IH]; intros y Hy; [contradiction|].
  destruct Hy as [Hy|Hy].
  - subst y. exists a. split; [left; reflexivity|exact Hab].
  - destruct (IH y Hy) as [x [Hx Hxy]]. exists x. split; [right|]; auto.
Qed.

Lemma find_snoc {A : Type} (p : A -> bool) (l : list A) (x : A) :
  find p (l ++ [x])
  = match find p l with
    | Some y => Some y
    | None => if p x then Some x else None
    end.
Proof.
  induction l as [|y l IH]; simpl.
  - reflexivity.
  - destruct (p y); [reflexivity|exact IH].
Qed.

Lemma find_existsb_false {A : Type} (p : A -> bool) (l : list A) :
  existsb p l = false -> find p l = None.
Proof.
  induction l as [|y l IH]; simpl; [reflexivity|].
  destruct (p y); simpl; [discriminate|exact IH].
Qed.

Lemma find_existsb_true {A : Type} (p : A -> bool) (l : list A) :
  existsb p l = true -> exists y, find p l = Some y.
Proof.
  induction l as [|y l IH]; simpl; [discriminate|].
  destruct (p y); simpl; [eexists; reflexivity|exact IH].
Qed.

(** The first row with a given id, after the rows with id [id] have been
    updated by [set], which keeps ids. *)
Lemma find_update {A : Type} (key : A -> Z) (set : A -> A) (id id' : Z)
    (l : list A) :
  (forall r, key (set r) = key r) ->
  find (fun r => key r =? id')
       (map (fun r => if key r =? id then set r else r) l)
  = match find (fun r => key r =? id') l with
    | Some r => Some (if key r =? id then set r else r)
    | None => None
    end.
Proof.
  intro Hkey. induction l as [|r l IH]; simpl; [reflexivity|].
  replace (key (if key r =? id then set r else r)) with (key r)
    by (destruct (key r =? id); [rewrite Hkey|]; reflexivity).
  destruct (key r =? id'); [reflexivity|exact IH].
Qed.

Lemma update_finished_by (id now : Z) (l : list WorkEntries.row) :
  Forall2 (finished_by id now) l
    (map (fun r => if WorkEntries.id r =? id
                   then WorkEntries.set_finished_on (Some now) r else r) l).
Proof.
  induction l as [|r l IH]; simpl; constructor; [|exact IH].
  unfold finished_by. destruct (WorkEntries.id r =? id) eqn:Hid; simpl.
  - apply Z.eqb_eq in Hid. repeat split; auto. intro H. contradiction.
  - apply Z.eqb_neq in Hid. repeat split; auto. intro H. contradiction.
Qed.

Lemma js_of_task_not_Unknown (r : Tasks.row) :
  js_of_task r <> taskService.Unknown.
Proof. unfold js_of_task, taskService.Unknown. discriminate. Qed.

Lemma well_formed_one_open_entry : well_formed one_open_entry.
Proof.
  constructor; simpl.
  - constructor; [intros []|constructor].
  - constructor; [intros []|constructor].
  - constructor; [simpl; lia|constructor].
  - constructor; [simpl; lia|constructor].
  - constructor; [reflexivity|constructor].
Qed.

(** In a well-formed store no work entry points at a missing task. *)
Lemma no_entry_of_missing_task (db : database) (taskId : Z) :
  well_formed db -> has_task db taskId = false ->
  forall r, In r (work_entries db) ->
            WorkEntries.task_id r <> Some taskId.
Proof.
  intros Hwf Hmiss r Hr Ht.
  pose proof (wf_task_id_fk db Hwf) as Hfk.
  rewrite Forall_forall in Hfk. specialize (Hfk r Hr).
  rewrite Ht in Hfk. unfold references_task in Hfk.
  unfold has_task in Hmiss. congruence.
Qed.


(** ** workEntryService *)

(** X1. For a [taskId] within INTEGER, [findCurrentWorkEntry(taskId)]
    changes nothing; it returns [false] exactly when no entry of the
    task is open, and otherwise a row of the table with that [task_id]
    and [finished_on] NULL, as the client renders it.  For any other
    [taskId] the call is rejected. *)
Theorem findCurrentWorkEntry_false_iff_none_open
    (taskId : Z) (db : database) :
  if Sql.is_int4 taskId then
    exists v,
      workEntryService.findCurrentWorkEntry taskId db = Fulfilled v db /\
      (v = JsBool false <->
       forall r, In r (work_entries db) ->
                 WorkEntries.task_id r = Some taskId ->
                 WorkEntries.finished_on r <> None) /\
      (v <> JsBool false ->
       exists r, In r (work_entries db) /\ v = js_of_work_entry r /\
                 WorkEntries.task_id r = Some taskId /\
                 WorkEntries.finished_on r = None)
  else
    workEntryService.findCurrentWorkEntry taskId db
    = Rejected numeric_value_out_of_range db.
Proof.
  rewrite findCurrentWorkEntry_find.
  destruct (Sql.is_int4 taskId); [|reflexivity].
  destruct (find (open_for taskId) (work_entries db)) as [r|] eqn:Hfind.
  - destruct (find_some _ _ Hfind) as [Hin Hopen].
    destruct (open_for_fields _ _ Hopen) as [Ht Hf].
    exists (js_of_work_entry r). split; [reflexivity|]. split.
    + split; [discriminate|]. intro H. exfalso. exact (H r Hin Ht Hf).
    + intros _. exists r. auto.
  - exists (JsBool false). split; [reflexivity|]. split.
    + split; [|reflexivity]. intros _ r Hin Ht Hf.
      pose proof (find_none _ _ Hfind r Hin) as Hopen.
      unfold open_for in Hopen. rewrite Ht, Hf, Z.eqb_refl in Hopen.
      discriminate.
    + intro H. contradiction.
Qed.

(** X2. When [id] is within INTEGER and no work entry has it,
    [finishWorkEntry(id)] is fulfilled and leaves the store as it found
    it. *)
Theorem finishWorkEntry_missing_is_noop (id now : Z) (db : database) :
  Sql.is_int4 id = true ->
  has_work_entry db id = false ->
  workEntryService.finishWorkEntry id now db = Fulfilled tt db.
Proof.
  intros Hid H. rewrite finishWorkEntry_store, Hid.
  unfold has_work_entry in H.
  rewrite (update_untouched WorkEntries.id id _ _ H).
  destruct db; reflexivity.
Qed.

Lemma finishWorkEntry_missing_is_noop_witness :
  Sql.is_int4 9 = true /\
  has_work_entry two_open_entries 9 = false /\
  workEntryService.finishWorkEntry 9 7 two_open_entries
  = Fulfilled tt two_open_entries.
Proof.
  split; [reflexivity|]. split; [reflexivity|].
  apply (finishWorkEntry_missing_is_noop 9 7 two_open_entries);
    reflexivity.
Defined.

(** X3. [finishWorkEntry] does not look at [finished_on]: finishing an
    entry again overwrites the earlier finish time, so two calls in a
    row have the outcome of the second call alone. *)
Theorem finishWorkEntry_last_call_wins (id t1 t2 : Z) (db : database) :
  (await workEntryService.finishWorkEntry id t1 ;;
   workEntryService.finishWorkEntry id t2) db
  = workEntryService.finishWorkEntry id t2 db.
Proof.
  unfold bind at 1. rewrite (finishWorkEntry_store id t1 db).
  destruct (Sql.is_int4 id) eqn:Hint.
  - cbv beta iota. rewrite !finishWorkEntry_store, Hint. simpl.
    do 2 f_equal. rewrite map_map. apply map_ext. intro r.
    destruct (WorkEntries.id r =? id) eqn:Hid; simpl; rewrite Hid;
      reflexivity.
  - rewrite finishWorkEntry_store, Hint. reflexivity.
Qed.

(** X4. For an [id] within INTEGER, [finishWorkEntry(id)] is fulfilled
    and the work entries after it are the work entries before it, as
    many, each with its [id], [task_id] and [started_on]: the rows
    carrying [id] have [finished_on] the current time and every other
    row is as it was; tasks and both sequences are unchanged.  For any
    other [id] the call is rejected and changes nothing. *)
Theorem finishWorkEntry_frame (id now : Z) (db : database) :
  if Sql.is_int4 id then
    exists db',
      workEntryService.finishWorkEntry id now db = Fulfilled tt db' /\
      (forall r, In r (work_entries db) ->
                 exists r', In r' (work_entries db') /\
                            finished_by id now r r') /\
      (forall r', In r' (work_entries db') ->
                  exists r, In r (work_entries db) /\
                            finished_by id now r r') /\
      List.length (work_entries db') = List.length (work_entries db) /\
      tasks db' = tasks db /\
      tasks_id_seq db' = tasks_id_seq db /\
      work_entries_id_seq db' = work_entries_id_seq db
  else
    workEntryService.finishWorkEntry id now db
    = Rejected numeric_value_out_of_range db.
Proof.
  rewrite finishWorkEntry_store. destruct (Sql.is_int4 id); [|reflexivity].
  eexists. split; [reflexivity|]. cbn [work_entries tasks tasks_id_seq
                                       work_entries_id_seq].
  pose proof (update_finished_by id now (work_entries db)) as H.
  split; [exact (Forall2_In_l _ _ _ H)|].
  split; [exact (Forall2_In_r _ _ _ H)|].
  split; [apply length_map|]. repeat split.
Qed.

(** X5. For a [taskId] within INTEGER that is no task's id, in a store
    whose next [work_entries] id is unused and not past the end of the
    sequence, [createWorkEntry(taskId)] is rejected with a foreign key
    violation: both tables are as before and the id drawn from the
    sequence is spent. *)
Theorem createWorkEntry_rejects_unknown_task
    (taskId now : Z) (db : database) :
  Sql.is_int4 taskId = true ->
  has_task db taskId = false ->
  work_entries_id_seq_fresh db = true ->
  exhausted (work_entries_id_seq db) = false ->
  workEntryService.createWorkEntry taskId now db
  = Rejected foreign_key_violation
      {| tasks := tasks db;
         work_entries := work_entries db;
         tasks_id_seq := tasks_id_seq db;
         work_entries_id_seq := work_entries_id_seq db + 1 |}.
Proof.
  intros Hint Hmiss Hfresh Hleft.
  unfold workEntryService.createWorkEntry, bind, integer_parameter,
    insert_work_entry.
  rewrite Hint, Hleft.
  unfold work_entries_id_seq_fresh in Hfresh.
  apply negb_true_iff in Hfresh. rewrite Hfresh.
  unfold references_task. unfold has_task in Hmiss. rewrite Hmiss.
  reflexivity.
Qed.

Lemma createWorkEntry_rejects_unknown_task_witness :
  Sql.is_int4 5 = true /\
  has_task one_open_entry 5 = false /\
  work_entries_id_seq_fresh one_open_entry = true /\
  exhausted (work_entries_id_seq one_open_entry) = false /\
  workEntryService.createWorkEntry 5 100 one_open_entry
  = Rejected foreign_key_violation
      {| tasks := tasks one_open_entry;
         work_entries := work_entries one_open_entry;
         tasks_id_seq := tasks_id_seq one_open_entry;
         work_entries_id_seq := work_entries_id_seq one_open_entry + 1 |}.
Proof.
  split; [reflexivity|]. split; [reflexivity|]. split; [reflexivity|].
  split; [reflexivity|].
  apply (createWorkEntry_rejects_unknown_task 5 100 one_open_entry);
    reflexivity.
Defined.

(** X6. In a well-formed store a [taskId] within INTEGER that is no
    task's id has no work entry at all: [findCurrentWorkEntry(taskId)]
    returns [false] and [calculateTotalTime(taskId)] returns [0],
    whatever the client makes of intervals. *)
Theorem missing_task_has_no_time (taskId : Z) (db : database) :
  well_formed db ->
  Sql.is_int4 taskId = true ->
  has_task db taskId = false ->
  workEntryService.findCurrentWorkEntry taskId db
  = Fulfilled (JsBool false) db /\
  forall js_of_interval,
    workEntryService.calculateTotalTime js_of_interval taskId db
    = Fulfilled (JsNumber 0) db.
Proof.
  intros Hwf Hint Hmiss.
  pose proof (no_entry_of_missing_task db taskId Hwf Hmiss) as Hno.
  split.
  - rewrite findCurrentWorkEntry_find, Hint.
    rewrite (find_none_of_all_false (open_for taskId) (work_entries db)).
    + reflexivity.
    + intros r Hr. specialize (Hno r Hr). unfold open_for.
      destruct (WorkEntries.task_id r) as [t|]; [|reflexivity].
      destruct (WorkEntries.finished_on r); [reflexivity|].
      apply Z.eqb_neq. congruence.
  - intro js. rewrite calculateTotalTime_durations, Hint. unfold durations.
    replace (filter (closed_for taskId) (work_entries db)) with
      (@nil WorkEntries.row); [reflexivity|].
    symmetry. induction (work_entries db) as [|r l IH]; [reflexivity|].
    simpl. assert (Hr : closed_for taskId r = false).
    { specialize (Hno r (or_introl eq_refl)). unfold closed_for.
      destruct (WorkEntries.task_id r) as [t|]; [|reflexivity].
      destruct (WorkEntries.finished_on r); [|reflexivity].
      apply Z.eqb_neq. congruence. }
    rewrite Hr. apply IH. intros r' Hr'. apply Hno. right. exact Hr'.
Qed.

Lemma missing_task_has_no_time_witness :
  well_formed one_open_entry /\
  Sql.is_int4 4 = true /\
  has_task one_open_entry 4 = false /\
  workEntryService.findCurrentWorkEntry 4 one_open_entry
  = Fulfilled (JsBool false) one_open_entry /\
  forall js_of_interval,
    workEntryService.calculateTotalTime js_of_interval 4 one_open_entry
    = Fulfilled (JsNumber 0) one_open_entry.
Proof.
  split; [exact well_formed_one_open_entry|].
  split; [reflexivity|]. split; [reflexivity|].
  apply (missing_task_has_no_time 4 one_open_entry).
  - exact well_formed_one_open_entry.
  - reflexivity.
  - reflexivity.
Defined.

(** X7. For an existing task, in a store whose next [work_entries] id
    is unused and an INTEGER, starting an entry at [t0] and then
    finishing that entry at [t1] adds exactly one interval, that of
    [t1 - t0], to what [calculateTotalTime] sums for the task: the new
    sum is the old one plus that interval, field by field, and the
    call returns what the client makes of it. *)
Theorem createWorkEntry_finishWorkEntry_adds_elapsed
    (taskId t0 t1 : Z) (db : database) :
  Sql.is_int4 taskId = true ->
  has_task db taskId = true ->
  work_entries_id_seq_fresh db = true ->
  Sql.is_int4 (work_entries_id_seq db) = true ->
  exists db1 db2,
    workEntryService.createWorkEntry taskId t0 db = Fulfilled tt db1 /\
    workEntryService.finishWorkEntry (work_entries_id_seq db) t1 db1
    = Fulfilled tt db2 /\
    durations taskId db2
    = durations taskId db ++ [Sql.justify_hours (t1 - t0)] /\
    forall js_of_interval,
      workEntryService.calculateTotalTime js_of_interval taskId db2
      = Fulfilled
          (if truthy
                (js_of_interval
                   (Sql.interval_pl (total (durations taskId db))
                                    (Sql.justify_hours (t1 - t0))))
           then js_of_interval
                  (Sql.interval_pl (total (durations taskId db))
                                   (Sql.justify_hours (t1 - t0)))
           else JsNumber 0) db2.
Proof.
  intros Hint Htask Hfresh Hseq.
  unfold workEntryService.createWorkEntry, bind, integer_parameter,
    insert_work_entry, ret.
  rewrite Hint, (is_int4_not_exhausted _ Hseq).
  unfold work_entries_id_seq_fresh in Hfresh.
  apply negb_true_iff in Hfresh. rewrite Hfresh.
  unfold references_task. unfold has_task in Htask. rewrite Htask.
  cbn [negb]. eexists. eexists. split; [reflexivity|].
  rewrite finishWorkEntry_store, Hseq.
  cbn [tasks work_entries tasks_id_seq work_entries_id_seq].
  split; [reflexivity|].
  assert (Hd : durations taskId
                 {| tasks := tasks db;
                    work_entries :=
                      map (fun r =>
                             if WorkEntries.id r =? work_entries_id_seq db
                             then WorkEntries.set_finished_on (Some t1) r
                             else r)
                          (work_entries db ++
                           [ {| WorkEntries.id := work_entries_id_seq db;
                                WorkEntries.task_id := Some taskId;
                                WorkEntries.started_on := Some t0;
                                WorkEntries.finished_on := None |} ]);
                    tasks_id_seq := tasks_id_seq db;
                    work_entries_id_seq := work_entries_id_seq db + 1 |}
               = durations taskId db ++ [Sql.justify_hours (t1 - t0)]).
  { unfold durations. cbn [work_entries]. rewrite map_app.
    rewrite (update_untouched WorkEntries.id _ _ _ Hfresh).
    cbn [map WorkEntries.id]. rewrite Z.eqb_refl.
    rewrite filter_app, flat_map_app.
    cbn [filter]. unfold closed_for at 2.
    cbn [WorkEntries.set_finished_on WorkEntries.task_id
         WorkEntries.finished_on WorkEntries.started_on WorkEntries.id].
    rewrite Z.eqb_refl. cbn [flat_map elapsed WorkEntries.finished_on
                              WorkEntries.started_on app].
    reflexivity. }
  split; [exact Hd|].
  intro js. rewrite calculateTotalTime_durations, Hint, Hd, <- total_snoc.
  destruct (durations taskId db ++ [Sql.justify_hours (t1 - t0)])
    as [|d ds] eqn:E.
  - destruct (durations taskId db); discriminate.
  - reflexivity.
Qed.

Lemma createWorkEntry_finishWorkEntry_adds_elapsed_witness :
  Sql.is_int4 1 = true /\
  has_task one_open_entry 1 = true /\
  work_entries_id_seq_fresh one_open_entry = true /\
  Sql.is_int4 (work_entries_id_seq one_open_entry) = true /\
  exists db1 db2,
    workEntryService.createWorkEntry 1 20 one_open_entry
    = Fulfilled tt db1 /\
    workEntryService.finishWorkEntry (work_entries_id_seq one_open_entry)
      93600000020 db1
    = Fulfilled tt db2 /\
    durations 1 db2
    = durations 1 one_open_entry ++ [Sql.justify_hours (93600000020 - 20)] /\
    forall js_of_interval,
      workEntryService.calculateTotalTime js_of_interval 1 db2
      = Fulfilled
          (if truthy
                (js_of_interval
                   (Sql.interval_pl (total (durations 1 one_open_entry))
                      (Sql.justify_hours (93600000020 - 20))))
           then js_of_interval
                  (Sql.interval_pl (total (durations 1 one_open_entry))
                     (Sql.justify_hours (93600000020 - 20)))
           else JsNumber 0) db2.
Proof.
  split; [reflexivity|]. split; [reflexivity|]. split; [reflexivity|].
  split; [reflexivity|].
  apply (createWorkEntry_finishWorkEntry_adds_elapsed
           1 20 93600000020 one_open_entry); reflexivity.
Defined.

(** X8. Starting an entry, whether the call is fulfilled or rejected,
    changes no task's total time: an open entry is not counted.  (For a
    task id outside INTEGER the total is refused before and after.) *)
Theorem createWorkEntry_keeps_total_time
    (js_of_interval : Sql.interval -> js_value) (taskId now t : Z)
    (db : database) :
  if Sql.is_int4 t then
    exists v,
      workEntryService.calculateTotalTime js_of_interval t db
      = Fulfilled v db /\
      workEntryService.calculateTotalTime js_of_interval t
        (store_of (workEntryService.createWorkEntry taskId now db))
      = Fulfilled v
          (store_of (workEntryService.createWorkEntry taskId now db))
  else
    workEntryService.calculateTotalTime js_of_interval t db
    = Rejected numeric_value_out_of_range db /\
    workEntryService.calculateTotalTime js_of_interval t
      (store_of (workEntryService.createWorkEntry taskId now db))
    = Rejected numeric_value_out_of_range
        (store_of (workEntryService.createWorkEntry taskId now db)).
Proof.
  assert (Hd : durations t
                 (store_of (workEntryService.createWorkEntry taskId now db))
               = durations t db).
  { unfold workEntryService.createWorkEntry, bind, integer_parameter,
      insert_work_entry, ret.
    destruct (Sql.is_int4 taskId); [|reflexivity].
    destruct (exhausted _); [reflexivity|].
    destruct (existsb _ _); [reflexivity|].
    destruct (negb _); [reflexivity|].
    unfold durations. simpl. rewrite filter_app, flat_map_app. simpl.
    apply app_nil_r. }
  rewrite !calculateTotalTime_durations, Hd.
  destruct (Sql.is_int4 t).
  - eexists. split; reflexivity.
  - split; reflexivity.
Qed.

(** X9. Completing a task, whether the call is fulfilled or rejected,
    touches no work entry: the task's current entry, if it has one,
    stays open, and its total time is the same.  (For a task id outside
    INTEGER both questions are refused before and after.) *)
Theorem completeById_keeps_work_entries
    (js_of_interval : Sql.interval -> js_value) (id taskId : Z)
    (db : database) :
  let db' := store_of (taskService.completeById id db) in
  (if Sql.is_int4 id
   then taskService.completeById id db = Fulfilled tt db'
   else taskService.completeById id db
        = Rejected numeric_value_out_of_range db) /\
  work_entries db' = work_entries db /\
  if Sql.is_int4 taskId then
    exists current total_time,
      workEntryService.findCurrentWorkEntry taskId db
      = Fulfilled current db /\
      workEntryService.findCurrentWorkEntry taskId db'
      = Fulfilled current db' /\
      workEntryService.calculateTotalTime js_of_interval taskId db
      = Fulfilled total_time db /\
      workEntryService.calculateTotalTime js_of_interval taskId db'
      = Fulfilled total_time db'
  else
    workEntryService.findCurrentWorkEntry taskId db'
    = Rejected numeric_value_out_of_range db' /\
    workEntryService.calculateTotalTime js_of_interval taskId db'
    = Rejected numeric_value_out_of_range db'.
Proof.
  intro db'.
  assert (Hw : work_entries db' = work_entries db).
  { unfold db'. rewrite completeById_store.
    destruct (Sql.is_int4 id); reflexivity. }
  split.
  - unfold db'. rewrite completeById_store.
    destruct (Sql.is_int4 id); reflexivity.
  - split; [exact Hw|].
    rewrite !findCurrentWorkEntry_find, !calculateTotalTime_durations.
    unfold durations. rewrite Hw.
    destruct (Sql.is_int4 taskId).
    + eexists. eexists. repeat split.
    + split; reflexivity.
Qed.

(** ** taskService *)

(** X10. For an [id] within INTEGER, [findById(id)] returns the object
    [{ id: 0, name: "Unknown" }] exactly when no task row has that id;
    no row of the table, not even one with id 0 and name "Unknown", is
    returned as that object.  For any other [id] the call is rejected. *)
Theorem findById_Unknown_iff_missing (id : Z) (db : database) :
  if Sql.is_int4 id then
    exists v,
      taskService.findById id db = Fulfilled v db /\
      (v = taskService.Unknown <-> has_task db id = false)
  else
    taskService.findById id db = Rejected numeric_value_out_of_range db.
Proof.
  rewrite findById_find. destruct (Sql.is_int4 id); [|reflexivity].
  unfold has_task.
  destruct (existsb (fun r => Tasks.id r =? id) (tasks db)) eqn:Hex.
  - destruct (find_existsb_true _ _ Hex) as [r Hfind]. rewrite Hfind.
    exists (js_of_task r). split; [reflexivity|]. split.
    + intro H. exfalso. exact (js_of_task_not_Unknown r H).
    + discriminate.
  - rewrite (find_existsb_false _ _ Hex).
    exists taskService.Unknown. split; [reflexivity|].
    split; reflexivity.
Qed.

(** X11. For a name without a NUL character, in a store whose next
    [tasks] id is unused and an INTEGER, the task just created is found
    under the id the sequence gave it, with the given name and
    [completed] false, and [findById] answers as before for every other
    id. *)
Theorem create_then_findById (name : string) (db : database) :
  Sql.is_text name = true ->
  tasks_id_seq_fresh db = true ->
  Sql.is_int4 (tasks_id_seq db) = true ->
  exists db',
    taskService.create name db = Fulfilled tt db' /\
    taskService.findById (tasks_id_seq db) db'
    = Fulfilled
        (JsObject [("id"%string, JsNumber (tasks_id_seq db));
                   ("name"%string, JsString name);
                   ("completed"%string, JsBool false)]) db' /\
    (forall id v, id <> tasks_id_seq db ->
                  taskService.findById id db = Fulfilled v db ->
                  taskService.findById id db' = Fulfilled v db').
Proof.
  intros Htext Hfresh Hseq.
  unfold taskService.create, bind, text_parameter, insert_task, ret.
  rewrite Htext, (is_int4_not_exhausted _ Hseq).
  unfold tasks_id_seq_fresh in Hfresh.
  apply negb_true_iff in Hfresh. rewrite Hfresh.
  eexists. split; [reflexivity|]. split.
  - rewrite findById_find, Hseq. cbn [tasks]. rewrite find_snoc.
    rewrite (find_existsb_false _ _ Hfresh). simpl.
    rewrite Z.eqb_refl. reflexivity.
  - intros id v Hid. rewrite !findById_find. cbn [tasks].
    destruct (Sql.is_int4 id); [|discriminate].
    rewrite find_snoc. intro H. injection H as H. subst v.
    destruct (find (fun r => Tasks.id r =? id) (tasks db)) as [r|].
    + reflexivity.
    + simpl. apply Z.eqb_neq in Hid. rewrite Z.eqb_sym, Hid. reflexivity.
Qed.

Lemma create_then_findById_witness :
  Sql.is_text "Review" = true /\
  tasks_id_seq_fresh two_open_entries = true /\
  Sql.is_int4 (tasks_id_seq two_open_entries) = true /\
  exists db',
    taskService.create "Review" two_open_entries = Fulfilled tt db' /\
    taskService.findById (tasks_id_seq two_open_entries) db'
    = Fulfilled
        (JsObject [("id"%string, JsNumber (tasks_id_seq two_open_entries));
                   ("name"%string, JsString "Review"%string);
                   ("completed"%string, JsBool false)]) db' /\
    (forall id v, id <> tasks_id_seq two_open_entries ->
                  taskService.findById id two_open_entries
                  = Fulfilled v two_open_entries ->
                  taskService.findById id db' = Fulfilled v db').
Proof.
  split; [reflexivity|]. split; [reflexivity|]. split; [reflexivity|].
  apply (create_then_findById "Review" two_open_entries); reflexivity.
Defined.

(** X12. For an [id] within INTEGER, after [completeById(id)],
    [findById(id)] returns the row it returned before with [completed]
    set to true (or still the Unknown object if there is no such row),
    and [findById] answers as before for every other id.  For any other
    [id] the call is rejected and changes nothing. *)
Theorem completeById_then_findById (id : Z) (db : database) :
  if Sql.is_int4 id then
    exists db',
      taskService.completeById id db = Fulfilled tt db' /\
      taskService.findById id db'
      = Fulfilled
          (match find (fun r => Tasks.id r =? id) (tasks db) with
           | Some r =>
               JsObject [("id"%string, JsNumber id);
                         ("name"%string, JsString (Tasks.name r));
                         ("completed"%string, JsBool true)]
           | None => taskService.Unknown
           end) db' /\
      (forall id' v, id' <> id ->
                     taskService.findById id' db = Fulfilled v db ->
                     taskService.findById id' db' = Fulfilled v db')
  else
    taskService.completeById id db
    = Rejected numeric_value_out_of_range db.
Proof.
  rewrite completeById_store.
  destruct (Sql.is_int4 id) eqn:Hint; [|reflexivity].
  eexists. split; [reflexivity|]. split.
  - rewrite findById_find, Hint. cbn [tasks].
    rewrite (find_update Tasks.id (Tasks.set_completed (Some true)))
      by reflexivity.
    destruct (find (fun r => Tasks.id r =? id) (tasks db)) as [r|] eqn:Hfind;
      [|reflexivity].
    destruct (find_some _ _ Hfind) as [_ Hid]. rewrite Hid.
    apply Z.eqb_eq in Hid. unfold js_of_task. simpl. rewrite Hid.
    reflexivity.
  - intros id' v Hne. rewrite !findById_find. cbn [tasks].
    destruct (Sql.is_int4 id'); [|discriminate].
    rewrite (find_update Tasks.id (Tasks.set_completed (Some true)))
      by reflexivity.
    intro H. injection H as H. subst v.
    destruct (find (fun r => Tasks.id r =? id') (tasks db)) as [r|] eqn:Hfind;
      [|reflexivity].
    destruct (find_some _ _ Hfind) as [_ Hid]. apply Z.eqb_eq in Hid.
    assert (Hr : (Tasks.id r =? id) = false)
      by (apply Z.eqb_neq; congruence).
    rewrite Hr. reflexivity.
Qed.

(** X13. For two ids within INTEGER, completing the two tasks in
    either order is fulfilled and leaves the same rows in the task
    table, and the same work entries and sequences. *)
Theorem completeById_commutes (a b : Z) (db : database) :
  Sql.is_int4 a = true ->
  Sql.is_int4 b = true ->
  exists db1 db2,
    (await taskService.completeById a ;; taskService.completeById b) db
    = Fulfilled tt db1 /\
    (await taskService.completeById b ;; taskService.completeById a) db
    = Fulfilled tt db2 /\
    Permutation (tasks db1) (tasks db2) /\
    work_entries db1 = work_entries db2 /\
    tasks_id_seq db1 = tasks_id_seq db2 /\
    work_entries_id_seq db1 = work_entries_id_seq db2.
Proof.
  intros Ha Hb.
  unfold bind. rewrite (completeById_store a db), (completeById_store b db).
  rewrite Ha, Hb. cbv beta iota. rewrite !completeById_store, Ha, Hb.
  eexists. eexists. split; [reflexivity|]. split; [reflexivity|].
  cbn [tasks work_entries tasks_id_seq work_entries_id_seq].
  split; [|repeat split].
  rewrite !map_map.
  replace (map (fun x => if Tasks.id (if Tasks.id x =? a
                                       then Tasks.set_completed (Some true) x
                                       else x) =? b
                         then Tasks.set_completed (Some true)
                                (if Tasks.id x =? a
                                 then Tasks.set_completed (Some true) x
                                 else x)
                         else if Tasks.id x =? a
                              then Tasks.set_completed (Some true) x
                              else x) (tasks db))
    with (map (fun x => if Tasks.id (if Tasks.id x =? b
                                     then Tasks.set_completed (Some true) x
                                     else x) =? a
                        then Tasks.set_completed (Some true)
                               (if Tasks.id x =? b
                                then Tasks.set_completed (Some true) x
                                else x)
                        else if Tasks.id x =? b
                             then Tasks.set_completed (Some true) x
                             else x) (tasks db)).
  - apply Permutation_refl.
  - apply map_ext. intro r.
    destruct (Tasks.id r =? a) eqn:Ea, (Tasks.id r =? b) eqn:Eb; simpl;
      rewrite ?Ea, ?Eb; reflexivity.
Qed.

Lemma completeById_commutes_witness :
  Sql.is_int4 1 = true /\
  Sql.is_int4 2 = true /\
  exists db1 db2,
    (await taskService.completeById 1 ;; taskService.completeById 2)
      (store_of (taskService.create "Review" one_task))
    = Fulfilled tt db1 /\
    (await taskService.completeById 2 ;; taskService.completeById 1)
      (store_of (taskService.create "Review" one_task))
    = Fulfilled tt db2 /\
    Permutation (tasks db1) (tasks db2) /\
    work_entries db1 = work_entries db2 /\
    tasks_id_seq db1 = tasks_id_seq db2 /\
    work_entries_id_seq db1 = work_entries_id_seq db2.
Proof.
  split; [reflexivity|]. split; [reflexivity|].
  apply (completeById_commutes 1 2
           (store_of (taskService.create "Review" one_task)));
    reflexivity.
Defined.

(** X14. A completed task stays completed: no owned operation takes a
    row that [findAllNonCompletedTasks] does not list (because its
    [completed] is true) back to [completed] false. *)
Theorem completed_stays_completed
    (js_of_interval : Sql.interval -> js_value) (c : call) (db : database)
    (r : Tasks.row) :
  In r (tasks db) -> Tasks.completed r = Some true ->
  In r (tasks (after js_of_interval c db)).
Proof.
  intros Hr Hc. destruct c; cbn [after].
  - rewrite completeById_store.
    destruct (Sql.is_int4 id); [|exact Hr]. cbn [store_of tasks].
    apply in_map_iff. exists r. split; [|exact Hr].
    destruct (Tasks.id r =? id); [|reflexivity].
    destruct r as [i n c]. simpl in Hc. subst c. reflexivity.
  - destruct (create_tasks name db) as [added H]. rewrite H.
    apply in_or_app. left. exact Hr.
  - rewrite findAllNonCompletedTasks_rows. exact Hr.
  - rewrite findById_store. exact Hr.
  - rewrite createWorkEntry_tasks. exact Hr.
  - rewrite findCurrentWorkEntry_store. exact Hr.
  - rewrite finishWorkEntry_tasks. exact Hr.
  - rewrite calculateTotalTime_store. exact Hr.
Qed.

Lemma completed_stays_completed_witness :
  In {| Tasks.id := 1; Tasks.name := "Write report"%string;
        Tasks.completed := Some true |}
     (tasks (after (fun _ => JsNull) (CompleteById 1) one_task)) /\
  Tasks.completed
    {| Tasks.id := 1; Tasks.name := "Write report"%string;
       Tasks.completed := Some true |} = Some true /\
  In {| Tasks.id := 1; Tasks.name := "Write report"%string;
        Tasks.completed := Some true |}
     (tasks (after (fun _ => JsNull) (Create "Review")
               (after (fun _ => JsNull) (CompleteById 1) one_task))).
Proof.
  split; [simpl; left; reflexivity|]. split; [reflexivity|].
  apply (completed_stays_completed (fun _ => JsNull) (Create "Review")
           (after (fun _ => JsNull) (CompleteById 1) one_task)
           {| Tasks.id := 1; Tasks.name := "Write report"%string;
              Tasks.completed := Some true |}).
  - simpl. left. reflexivity.
  - reflexivity.
Defined.

(** ** Stores reached through the services *)

Lemma well_formed_run (js_of_interval : Sql.interval -> js_value)
    (cs : list call) (db : database) :
  well_formed db ->
  well_formed (fold_left (fun db c => after js_of_interval c db) cs db).
Proof.
  revert db. induction cs as [|c cs IH]; simpl; intros db Hdb.
  - exact Hdb.
  - apply IH, well_formed_after, Hdb.
Qed.

(** X15. In every store reached from the migration by service calls,
    the primary key never gets in the way.  [create(name)] fails only
    for a name with a NUL character or once the sequence of [tasks] is
    exhausted; [createWorkEntry(taskId)] fails only for a [taskId]
    outside INTEGER, once the sequence of [work_entries] is exhausted,
    or, with a foreign key violation, for a [taskId] that is no task's
    id. *)
Theorem inserts_in_reached_store
    (js_of_interval : Sql.interval -> js_value) (cs : list call)
    (name : string) (taskId now : Z) :
  let db := fold_left (fun db c => after js_of_interval c db) cs
                      V1_initial_schema in
  match taskService.create name db with
  | Fulfilled _ _ =>
      Sql.is_text name = true /\ exhausted (tasks_id_seq db) = false
  | Rejected e _ =>
      (e = character_not_in_repertoire /\ Sql.is_text name = false) \/
      (e = sequence_generator_limit_exceeded /\
       Sql.is_text name = true /\ exhausted (tasks_id_seq db) = true)
  end /\
  match workEntryService.createWorkEntry taskId now db with
  | Fulfilled _ _ =>
      Sql.is_int4 taskId = true /\
      exhausted (work_entries_id_seq db) = false /\
      has_task db taskId = true
  | Rejected e _ =>
      (e = numeric_value_out_of_range /\ Sql.is_int4 taskId = false) \/
      (e = sequence_generator_limit_exceeded /\
       Sql.is_int4 taskId = true /\
       exhausted (work_entries_id_seq db) = true) \/
      (e = foreign_key_violation /\
       Sql.is_int4 taskId = true /\
       exhausted (work_entries_id_seq db) = false /\
       has_task db taskId = false)
  end.
Proof.
  intro db.
  assert (Hwf : well_formed db)
    by (apply well_formed_run, well_formed_initial).
  destruct (well_formed_fresh db Hwf) as [Ht Hw].
  unfold tasks_id_seq_fresh in Ht. apply negb_true_iff in Ht.
  unfold work_entries_id_seq_fresh in Hw. apply negb_true_iff in Hw.
  split.
  - unfold taskService.create, bind, text_parameter, insert_task, ret.
    destruct (Sql.is_text name); [|left; split; reflexivity].
    destruct (exhausted (tasks_id_seq db));
      [right; repeat split|].
    rewrite Ht. split; reflexivity.
  - unfold workEntryService.createWorkEntry, bind, integer_parameter,
      insert_work_entry, ret.
    destruct (Sql.is_int4 taskId); [|left; split; reflexivity].
    destruct (exhausted (work_entries_id_seq db));
      [right; left; repeat split|].
    rewrite Hw. unfold references_task, has_task.
    destruct (existsb (fun r => Tasks.id r =? taskId) (tasks db)); simpl.
    + repeat split.
    + right. right. repeat split.
Qed.

(** * The escaping helper of the template engine *)

(** ** Lemmas on strings *)

Lemma chars_append (a b : string) :
  EtaUtils.chars (a ++ b) = EtaUtils.chars a ++ EtaUtils.chars b.
Proof.
  induction a as [|c a IH]; simpl; [reflexivity|]. rewrite IH. reflexivity.
Qed.

Lemma string_append_assoc (a b c : string) :
  ((a ++ b) ++ c)%string = (a ++ (b ++ c))%string.
Proof.
  induction a as [|x a IH]; simpl; [reflexivity|]. rewrite IH. reflexivity.
Qed.

Lemma string_length_append (a b : string) :
  String.length (a ++ b) = (String.length a + String.length b)%nat.
Proof.
  induction a as [|x a IH]; simpl; [reflexivity|]. rewrite IH. reflexivity.
Qed.

(** The class has exactly five members. *)
Lemma special_cases (c : ascii) :
  EtaUtils.special c = true ->
  c = "&"%char \/ c = "<"%char \/ c = ">"%char \/ c = EtaUtils.quot \/
  c = "'"%char.
Proof.
  destruct c as [[|] [|] [|] [|] [|] [|] [|] [|]]; simpl;
    intro H; try discriminate H; unfold EtaUtils.quot; auto 6.
Qed.

(** The text put in place of a character of the class starts with an
    ampersand and holds no other character of the class. *)
Lemma replaceChar_shape (c : ascii) :
  EtaUtils.special c = true ->
  exists tail,
    EtaUtils.replaceChar c = String "&"%char tail /\
    tail <> EmptyString /\
    forall x, In x (EtaUtils.chars tail) -> EtaUtils.special x = false.
Proof.
  intro H.
  destruct (special_cases c H) as [E|[E|[E|[E|E]]]]; subst c;
    eexists; (split; [reflexivity|]); (split; [discriminate|]);
    simpl; intros x Hx;
    repeat (destruct Hx as [Hx|Hx]; [subst x; reflexivity|]);
    contradiction.
Qed.

Lemma test_false_chars (s : string) :
  EtaUtils.test s = false ->
  forall c, In c (EtaUtils.chars s) -> EtaUtils.special c = false.
Proof.
  induction s as [|x s IH]; simpl; intros H c Hc; [contradiction|].
  apply orb_false_iff in H. destruct H as [Hx Hs].
  destruct Hc as [Hc|Hc]; [subst c; exact Hx|exact (IH Hs c Hc)].
Qed.

Lemma replace_clean (s : string) :
  EtaUtils.test s = false -> EtaUtils.replace s = s.
Proof.
  induction s as [|x s IH]; simpl; intro H; [reflexivity|].
  apply orb_false_iff in H. destruct H as [Hx Hs].
  rewrite Hx, (IH Hs). reflexivity.
Qed.

(** The test before the replacement only saves work. *)
Lemma XMLEscape_replace (s : string) :
  EtaUtils.XMLEscape s = EtaUtils.replace s.
Proof.
  unfold EtaUtils.XMLEscape. destruct (EtaUtils.test s) eqn:H.
  - reflexivity.
  - symmetry. apply replace_clean, H.
Qed.

Lemma replace_append (a b : string) :
  EtaUtils.replace (a ++ b)
  = (EtaUtils.replace a ++ EtaUtils.replace b)%string.
Proof.
  induction a as [|x a IH]; simpl; [reflexivity|].
  rewrite IH. destruct (EtaUtils.special x).
  - symmetry. apply string_append_assoc.
  - reflexivity.
Qed.

Lemma replace_length (s : string) :
  (String.length s <= String.length (EtaUtils.replace s))%nat /\
  (EtaUtils.test s = true ->
   (String.length s < String.length (EtaUtils.replace s))%nat).
Proof.
  induction s as [|x s [IHle IHlt]]; simpl.
  - split; [lia|discriminate].
  - destruct (EtaUtils.special x) eqn:Hx; simpl.
    + destruct (replaceChar_shape x Hx) as [tail [E [Hne _]]].
      rewrite E. simpl. rewrite string_length_append.
      destruct tail as [|y tail]; [contradiction|]. simpl.
      split; [lia|intros _; lia].
    + split; [lia|]. intro H. specialize (IHlt H). lia.
Qed.

Lemma replace_chars (s : string) (c : ascii) :
  In c (EtaUtils.chars (EtaUtils.replace s)) ->
  EtaUtils.special c = true -> c = "&"%char.
Proof.
  induction s as [|x s IH]; simpl; intros Hc Hsp; [contradiction|].
  destruct (EtaUtils.special x) eqn:Hx.
  - destruct (replaceChar_shape x Hx) as [tail [E [_ Htail]]].
    rewrite E in Hc. simpl in Hc. rewrite chars_append in Hc.
    destruct Hc as [Hc|Hc]; [symmetry; exact Hc|].
    apply in_app_or in Hc. destruct Hc as [Hc|Hc].
    + rewrite (Htail c Hc) in Hsp. discriminate.
    + exact (IH Hc Hsp).
  - simpl in Hc. destruct Hc as [Hc|Hc].
    + subst c. congruence.
    + exact (IH Hc Hsp).
Qed.

Lemma replace_inj (a b : string) :
  EtaUtils.replace a = EtaUtils.replace b -> a = b.
Proof.
  revert b. induction a as [|x a IH]; intros [|y b]; simpl.
  - reflexivity.
  - destruct (EtaUtils.special y) eqn:Hy; [|discriminate].
    destruct (replaceChar_shape y Hy) as [tail [E _]]. rewrite E.
    discriminate.
  - destruct (EtaUtils.special x) eqn:Hx; [|discriminate].
    destruct (replaceChar_shape x Hx) as [tail [E _]]. rewrite E.
    discriminate.
  - destruct (EtaUtils.special x) eqn:Hx, (EtaUtils.special y) eqn:Hy.
    + destruct (special_cases x Hx) as [E|[E|[E|[E|E]]]];
        destruct (special_cases y Hy) as [F|[F|[F|[F|F]]]];
        subst x y; simpl; intro H; try discriminate H;
        injection H as H; rewrite (IH b H); reflexivity.
    + destruct (replaceChar_shape x Hx) as [tail [E _]]. rewrite E.
      simpl. intro H. injection H as H _. subst y.
      simpl in Hy. discriminate.
    + destruct (replaceChar_shape y Hy) as [tail [E _]]. rewrite E.
      simpl. intro H. injection H as H _. subst x.
      simpl in Hx. discriminate.
    + intro H. injection H as H1 H2. subst y. rewrite (IH b H2).
      reflexivity.
Qed.

(** ** XMLEscape *)

(** X16. The result of [XMLEscape] holds no angle bracket, no double
    quote and no apostrophe: the only character of the class left in it
    is the ampersand that starts each replacement. *)
Theorem XMLEscape_no_markup (s : string) :
  Forall (fun c => c <> "<"%char /\ c <> ">"%char /\
                   c <> EtaUtils.quot /\ c <> "'"%char)
         (EtaUtils.chars (EtaUtils.XMLEscape s)).
Proof.
  apply Forall_forall. intros c Hc. rewrite XMLEscape_replace in Hc.
  pose proof (replace_chars s c Hc) as H.
  repeat split; intro E; subst c;
    specialize (H eq_refl); discriminate H.
Qed.

(** X17. [XMLEscape] works character by character: escaping a
    concatenation gives the concatenation of the escaped parts. *)
Theorem XMLEscape_append (a b : string) :
  EtaUtils.XMLEscape (a ++ b)
  = (EtaUtils.XMLEscape a ++ EtaUtils.XMLEscape b)%string.
Proof. rewrite !XMLEscape_replace. apply replace_append. Qed.

(** X18. [XMLEscape] returns its argument unchanged exactly when the
    argument holds none of the five characters; otherwise the result is
    strictly longer, and it is never shorter. *)
Theorem XMLEscape_unchanged_iff_clean (s : string) :
  (EtaUtils.XMLEscape s = s <->
   Forall (fun c => EtaUtils.special c = false) (EtaUtils.chars s)) /\
  (String.length s <= String.length (EtaUtils.XMLEscape s))%nat.
Proof.
  destruct (replace_length s) as [Hle Hlt]. split.
  - split.
    + intro H. apply Forall_forall. apply test_false_chars.
      destruct (EtaUtils.test s) eqn:Ht; [|reflexivity].
      specialize (Hlt eq_refl). rewrite <- XMLEscape_replace, H in Hlt. lia.
    + intro H. unfold EtaUtils.XMLEscape.
      destruct (EtaUtils.test s) eqn:Ht; [|reflexivity].
      exfalso. clear Hle Hlt. induction s as [|x s IH]; simpl in *.
      * discriminate.
      * inversion H as [|? ? Hx Hs]; subst. rewrite Hx in Ht. simpl in Ht.
        exact (IH Ht Hs).
  - rewrite XMLEscape_replace. exact Hle.
Qed.

(** X19. [XMLEscape] loses nothing: two strings with the same escaped
    form are the same string. *)
Theorem XMLEscape_injective (a b : string) :
  EtaUtils.XMLEscape a = EtaUtils.XMLEscape b -> a = b.
Proof. rewrite !XMLEscape_replace. apply replace_inj. Qed.

Lemma XMLEscape_injective_witness :
  EtaUtils.XMLEscape "<b>R&D</b>" = EtaUtils.XMLEscape "<b>R&D</b>" /\
  "<b>R&D</b>"%string = "<b>R&D</b>"%string.
Proof.
  split; [reflexivity|].
  apply (XMLEscape_injective "<b>R&D</b>" "<b>R&D</b>"). reflexivity.
Defined.
